(** * RingBuffer.h: the replay cache, the gated reader, the per-poller
      dispatcher and the ring buffer of ZLToolKit, as a shallow embedding.

  Layout of the development
  - [Int]: the machine integers the header computes with.
  - [_RingStorageInternal], [_RingStorage]: the bounded cache and its
    self-sizing wrapper (pure functions on records).
  - [_RingReader]: the gating state machine of one reader; the functions
    take the current value of the storage the reader's [_storage] pointer
    designates, and return the callback invocations they perform.
  - [World]: the heaps of storages, dispatchers and readers, the pollers'
    task queues and the trace of callback invocations; the operations of
    [_RingReaderDispatcher] and [RingBuffer] run in a state-and-exception
    monad over it.
  - the theorems about the behaviour of the above. *)

From Stdlib Require Import ZArith String.
From stdpp Require Import base list gmap.

#[local] Open Scope Z_scope.

(** ** Machine integers *)

Module Int.

(** [int] is 32 bits wide.  Overflow of a signed [int] is undefined in
    C++; the model takes the two's-complement result.  Theorems that
    depend on a counter carry a range hypothesis instead of relying on
    it. *)
Definition min_int : Z := - 2 ^ 31.
Definition max_int : Z := 2 ^ 31 - 1.

Definition in_range (z : Z) : Prop := min_int <= z <= max_int.

Definition wrap (z : Z) : Z := (z + 2 ^ 31) mod 2 ^ 32 - 2 ^ 31.

(** Conversion of an [int] to [size_t] (64 bits, unsigned), as the usual
    arithmetic conversions do when an [int] is compared with
    [deque::size()]. *)
Definition to_size_t (z : Z) : Z := z mod 2 ^ 64.

(** A member the constructor leaves uninitialised: [_RingStorage::_max_size]
    when a fixed size is requested.  It is never read in that case
    ([_can_resize] is false), so any value stands for it. *)
Definition indeterminate : Z := 0.

End Int.

(** [#define RING_MIN_SIZE 1] *)
Definition RING_MIN_SIZE : Z := 1.

(** ** [_RingStorageInternal<T>]: the bounded deque *)

Module _RingStorageInternal.
Section defs.
Context {T : Type}.

Record t : Type := mk {
  _data_cache : list (bool * T);
  _max_size : Z
  }.

(** [_RingStorageInternal(int max_size)] *)
Definition ctor (max_size : Z) : t :=
  {| _data_cache := []; _max_size := max_size |}.

(** [write]: a key frame clears the deque; the entry is appended; one
    entry is popped from the front when the size exceeds [_max_size]
    (compared as [size_t]). *)
Definition write (in_ : T) (is_key : bool) (s : t) : t :=
  let cleared := if is_key then [] else _data_cache s in
  let pushed := cleared ++ [(is_key, in_)] in
  let popped :=
    if Z.of_nat (length pushed) >? Int.to_size_t (_max_size s)
    then tail pushed else pushed in
  {| _data_cache := popped; _max_size := _max_size s |}.

Definition clone (s : t) : t :=
  {| _data_cache := _data_cache s; _max_size := _max_size s |}.

Definition getCache (s : t) : list (bool * T) := _data_cache s.

Definition maxSize (s : t) : Z := _max_size s.
End defs.
Arguments t : clear implicits.
End _RingStorageInternal.

(** ** [_RingStorage<T>]: the cache with its adaptive size *)

Module _RingStorage.
Section defs.
Context {T : Type}.

Record t : Type := mk {
  _storage_internal : _RingStorageInternal.t T;
  _beset_size : Z;
  _total_count : Z;
  _last_key_count : Z;
  _can_resize : bool;
  _max_size : Z
  }.

(** [_RingStorage(int size, int max_size)] *)
Definition ctor (size max_size : Z) : t :=
  if size <=? 0 then
    {| _storage_internal := _RingStorageInternal.ctor max_size;
       _beset_size := 0; _total_count := 0; _last_key_count := 0;
       _can_resize := true; _max_size := max_size |}
  else
    {| _storage_internal := _RingStorageInternal.ctor size;
       _beset_size := 0; _total_count := 0; _last_key_count := 0;
       _can_resize := false; _max_size := Int.indeterminate |}.

(** [computeGopSize]: returns whether the cache was re-allocated, and the
    updated object. *)
Definition computeGopSize (is_key : bool) (s : t) : bool * t :=
  if negb (_can_resize s) || negb (_beset_size s =? 0) then (false, s)
  else
    let total := Int.wrap (_total_count s + 1) in
    if negb is_key then
      (false,
       {| _storage_internal := _storage_internal s;
          _beset_size := _beset_size s; _total_count := total;
          _last_key_count := _last_key_count s;
          _can_resize := _can_resize s; _max_size := _max_size s |})
    else if _last_key_count s =? 0 then
      (false,
       {| _storage_internal := _storage_internal s;
          _beset_size := _beset_size s; _total_count := total;
          _last_key_count := total;
          _can_resize := _can_resize s; _max_size := _max_size s |})
    else
      let gop2 := Int.wrap (Int.wrap (total - _last_key_count s) * 2) in
      let capped := if gop2 >? _max_size s then _max_size s else gop2 in
      let beset :=
        if capped <? RING_MIN_SIZE then RING_MIN_SIZE else capped in
      (true,
       {| _storage_internal := _RingStorageInternal.ctor beset;
          _beset_size := beset; _total_count := total;
          _last_key_count := _last_key_count s;
          _can_resize := _can_resize s; _max_size := _max_size s |}).

Definition with_internal (i : _RingStorageInternal.t T) (s : t) : t :=
  {| _storage_internal := i;
     _beset_size := _beset_size s; _total_count := _total_count s;
     _last_key_count := _last_key_count s;
     _can_resize := _can_resize s; _max_size := _max_size s |}.

(** [write]: [computeGopSize(is_key); _storage_internal->write(in, is_key)] *)
Definition write (in_ : T) (is_key : bool) (s : t) : t :=
  let s1 := snd (computeGopSize is_key s) in
  with_internal
    (_RingStorageInternal.write in_ is_key (_storage_internal s1)) s1.

Definition getCache (s : t) : list (bool * T) :=
  _RingStorageInternal.getCache (_storage_internal s).

Definition maxSize (s : t) : Z :=
  _RingStorageInternal.maxSize (_storage_internal s).

Definition clone (s : t) : t :=
  {| _storage_internal := _RingStorageInternal.clone (_storage_internal s);
     _beset_size := _beset_size s; _total_count := _total_count s;
     _last_key_count := _last_key_count s;
     _can_resize := _can_resize s; _max_size := _max_size s |}.

(** A sequence of writes, oldest first; an element is the cache entry
    the write appends, [(is_key, in)]. *)
Definition writes (ws : list (bool * T)) (s : t) : t :=
  fold_left (fun acc w => write (snd w) (fst w) acc) ws s.
End defs.
Arguments t : clear implicits.
End _RingStorage.

(** ** Callbacks, delegates and what they let the outside observe *)

(** A [std::function] supplied by the user is opaque to the header: the
    model names it by a number and records each invocation, with its
    arguments, in a trace.  (A user callback that calls back into the ring
    buffer is outside the model.) *)
Inductive Event {T : Type} : Type :=
| ReadCB (cb : nat) (data : T)
| DetachCB (cb : nat)
| DelegateOnWrite (delegate : nat) (in_ : T) (is_key : bool)
| ReaderChangedCB (cb : nat) (poller : positive) (size : Z) (add_flag : bool).
Arguments Event : clear implicits.

(** The value of a callback member: the empty lambda the header installs
    by default, or a user's function. *)
Inductive callback : Type :=
| Noop
| User (cb : nat).

(** ** [_RingReader<T>]: the gating state machine *)

Module _RingReader.
Section defs.
Context {T : Type}.

Record t : Type := mk {
  _read_cb : callback;
  _detach_cb : callback;
  _storage : positive;
  _use_cache : bool;
  _start_on_read : bool;
  _ignored_count : Z
}.

(** [_RingReader(storage, use_cache)], with the default member values. *)
Definition ctor (storage : positive) (use_cache : bool) : t :=
  {| _read_cb := Noop; _detach_cb := Noop; _storage := storage;
     _use_cache := use_cache; _start_on_read := false; _ignored_count := 0 |}.

Definition set_read_cb (cb : callback) (r : t) : t :=
  {| _read_cb := cb; _detach_cb := _detach_cb r; _storage := _storage r;
     _use_cache := _use_cache r; _start_on_read := _start_on_read r;
     _ignored_count := _ignored_count r |}.

Definition set_detach_cb (cb : callback) (r : t) : t :=
  {| _read_cb := _read_cb r; _detach_cb := cb; _storage := _storage r;
     _use_cache := _use_cache r; _start_on_read := _start_on_read r;
     _ignored_count := _ignored_count r |}.

Definition set_start_on_read (b : bool) (r : t) : t :=
  {| _read_cb := _read_cb r; _detach_cb := _detach_cb r;
     _storage := _storage r; _use_cache := _use_cache r;
     _start_on_read := b; _ignored_count := _ignored_count r |}.

Definition set_ignored_count (n : Z) (r : t) : t :=
  {| _read_cb := _read_cb r; _detach_cb := _detach_cb r;
     _storage := _storage r; _use_cache := _use_cache r;
     _start_on_read := _start_on_read r; _ignored_count := n |}.

(** [_read_cb(data)] *)
Definition call_read_cb (cb : callback) (data : T) : list (Event T) :=
  match cb with
  | Noop => []
  | User f => [ReadCB f data]
  end.

(** [_detach_cb()] *)
Definition call_detach_cb (cb : callback) : list (Event T) :=
  match cb with
  | Noop => []
  | User f => [DetachCB f]
  end.

(** [onRead(data, is_key)]; [storage] is the object [_storage] points to. *)
Definition onRead (storage : _RingStorage.t T) (data : T) (is_key : bool)
    (r : t) : t * list (Event T) :=
  if _start_on_read r || negb (_use_cache r) then
    (r, call_read_cb (_read_cb r) data)
  else if negb (_start_on_read r) && is_key then
    (set_start_on_read true r, call_read_cb (_read_cb r) data)
  else
    let r1 := set_ignored_count (Int.wrap (_ignored_count r + 1)) r in
    if _ignored_count r1 >=? _RingStorage.maxSize storage then
      (set_start_on_read true r1, [])
    else (r1, []).

Definition onDetach (r : t) : list (Event T) :=
  call_detach_cb (_detach_cb r).

(** The loop of [flushGop] over an entry sequence. *)
Definition replay (storage : _RingStorage.t T) (cache : list (bool * T))
    (r : t) : t * list (Event T) :=
  fold_left
    (fun acc pr =>
       let '(r1, evs) := onRead storage (snd pr) (fst pr) (fst acc) in
       (r1, snd acc ++ evs))
    cache (r, []).

Definition flushGop (storage : _RingStorage.t T) (r : t)
    : t * list (Event T) :=
  if negb (_use_cache r) then (r, [])
  else replay storage (_RingStorage.getCache storage) r.

(** [setReadCB(cb)]; [None] is an empty [std::function]. *)
Definition setReadCB (cb : option nat) (storage : _RingStorage.t T) (r : t)
    : t * list (Event T) :=
  match cb with
  | None => (set_read_cb Noop r, [])
  | Some f =>
      flushGop storage
        (set_read_cb (User f)
           (set_start_on_read false (set_ignored_count 0 r)))
  end.

(** [setDetachCB(cb)] *)
Definition setDetachCB (cb : option nat) (r : t) : t :=
  match cb with
  | None => set_detach_cb Noop r
  | Some f => set_detach_cb (User f) r
  end.
End defs.
End _RingReader.

(** ** The execution context *)

(** Modelled from the spec: [EventPoller] (Poller/EventPoller.h), of which
    the header uses the identity of the object, [isCurrentThread()] and
    [async(task, may_sync)].  A poller is the address of the object, the
    key of [_dispatcher_map] under [HashOfPtr], and the thread that runs
    its loop. *)
Record EventPoller : Type := mkPoller {
  poller_addr : positive;
  poller_thread : nat
}.

(** [poller->isCurrentThread()], called on thread [cur]. *)
Definition isCurrentThread (poller : EventPoller) (cur : nat) : bool :=
  Nat.eqb (poller_thread poller) cur.

(** ** [_RingReaderDispatcher<T>] and [RingBuffer<T>]: the objects *)

(** The only [function<void(int, bool)>] a dispatcher is ever built with
    is the lambda of [RingBuffer::attach], which captures the buffer
    (weakly) and the poller. *)
Inductive size_changed_fn : Type :=
| BufferSizeChanged (poller : EventPoller).

Module _RingReaderDispatcher.

Record t : Type := mk {
  _on_size_changed : size_changed_fn;
  _reader_size : Z;
  _storage : positive;
  _reader_map : gmap positive positive
}.

(** [_RingReaderDispatcher(storage, onSizeChanged)] *)
Definition ctor (storage : positive) (onSizeChanged : size_changed_fn) : t :=
  {| _on_size_changed := onSizeChanged; _reader_size := 0;
     _storage := storage; _reader_map := ∅ |}.

Definition set_readers (size : Z) (m : gmap positive positive) (d : t) : t :=
  {| _on_size_changed := _on_size_changed d; _reader_size := size;
     _storage := _storage d; _reader_map := m |}.

End _RingReaderDispatcher.

Module RingBuffer.

Record t : Type := mk {
  _storage : positive;
  _delegate : option nat;
  _on_reader_changed : option nat;
  _dispatcher_map : gmap positive positive
}.

Definition set_dispatcher_map (m : gmap positive positive) (b : t) : t :=
  {| _storage := _storage b; _delegate := _delegate b;
     _on_reader_changed := _on_reader_changed b; _dispatcher_map := m |}.

Definition set_delegate (d : option nat) (b : t) : t :=
  {| _storage := _storage b; _delegate := d;
     _on_reader_changed := _on_reader_changed b;
     _dispatcher_map := _dispatcher_map b |}.

End RingBuffer.

(** ** The world: heaps, task queues, trace *)

(** [std::runtime_error] with its message. *)
Inductive exn : Type :=
| runtime_error (what : string).

(** Outcome of a call: normal return, a C++ exception, or undefined
    behaviour: a dereference, or a [delete], of a pointer that designates
    no object. *)
Inductive outcome (A : Type) : Type :=
| Ok (a : A)
| Throw (e : exn)
| Fault.
Arguments Ok {A} a.
Arguments Throw {A} e.
Arguments Fault {A}.

(** The task [RingBuffer::write] posts: the lambda capturing the
    dispatcher, the frame and the flag. *)
Inductive Task {T : Type} : Type :=
| DispatcherWrite (dispatcher : positive) (in_ : T) (is_key : bool).
Arguments Task : clear implicits.

(** The heaps of the objects; [w_readers] holds the readers a
    [shared_ptr] owns (on which [weak_ptr::lock()] succeeds), [w_released]
    the readers whose last [shared_ptr] is gone and which have not been
    deleted yet. *)
Record World {T : Type} : Type := mkWorld {
  w_buffer : RingBuffer.t;
  w_storages : gmap positive (_RingStorage.t T);
  w_dispatchers : gmap positive _RingReaderDispatcher.t;
  w_readers : gmap positive _RingReader.t;
  w_released : gmap positive _RingReader.t;
  w_queues : gmap positive (list (Task T));
  w_trace : list (Event T);
  w_next : positive
}.
Arguments World : clear implicits.

Definition attach_error : exn :=
  runtime_error "必须在绑定的poller线程中执行attach操作".

Section world_ops.
Context {T : Type}.

(** State (the world, kept when an exception leaves the call) and
    outcome. *)
Definition M (A : Type) : Type := World T -> World T * outcome A.

#[export] Instance M_ret : MRet M := fun A a w => (w, Ok a).

#[export] Instance M_bind : MBind M := fun A B k m w =>
  match m w with
  | (w1, Ok a) => k a w1
  | (w1, Throw e) => (w1, Throw e)
  | (w1, Fault) => (w1, Fault)
  end.

#[export] Instance M_fmap : FMap M := fun A B f m w =>
  match m w with
  | (w1, Ok a) => (w1, Ok (f a))
  | (w1, Throw e) => (w1, Throw e)
  | (w1, Fault) => (w1, Fault)
  end.

Definition get_world : M (World T) := fun w => (w, Ok w).

Definition get_buffer : M RingBuffer.t := fun w => (w, Ok (w_buffer w)).

Definition throw {A : Type} (e : exn) : M A := fun w => (w, Throw e).

Definition deref {B : Type} (heap : World T -> gmap positive B)
    (p : positive) : M B := fun w =>
  match heap w !! p with
  | Some o => (w, Ok o)
  | None => (w, Fault)
  end.

Definition set_buffer (b : RingBuffer.t) : M unit := fun w =>
  ({| w_buffer := b; w_storages := w_storages w;
      w_dispatchers := w_dispatchers w; w_readers := w_readers w;
      w_queues := w_queues w; w_trace := w_trace w; w_next := w_next w;
      w_released := w_released w |},
   Ok tt).

Definition set_storage (p : positive) (s : _RingStorage.t T) : M unit :=
  fun w =>
  ({| w_buffer := w_buffer w; w_storages := <[p := s]> (w_storages w);
      w_dispatchers := w_dispatchers w; w_readers := w_readers w;
      w_queues := w_queues w; w_trace := w_trace w; w_next := w_next w;
      w_released := w_released w |},
   Ok tt).

Definition set_dispatcher (p : positive) (d : _RingReaderDispatcher.t)
    : M unit := fun w =>
  ({| w_buffer := w_buffer w; w_storages := w_storages w;
      w_dispatchers := <[p := d]> (w_dispatchers w);
      w_readers := w_readers w;
      w_queues := w_queues w; w_trace := w_trace w; w_next := w_next w;
      w_released := w_released w |},
   Ok tt).

Definition set_reader (p : positive) (r : _RingReader.t) : M unit :=
  fun w =>
  ({| w_buffer := w_buffer w; w_storages := w_storages w;
      w_dispatchers := w_dispatchers w;
      w_readers := <[p := r]> (w_readers w);
      w_queues := w_queues w; w_trace := w_trace w; w_next := w_next w;
      w_released := w_released w |},
   Ok tt).

(** Invocations of user callbacks, appended to the trace. *)
Definition emit (evs : list (Event T)) : M unit := fun w =>
  ({| w_buffer := w_buffer w; w_storages := w_storages w;
      w_dispatchers := w_dispatchers w; w_readers := w_readers w;
      w_queues := w_queues w; w_trace := w_trace w ++ evs;
      w_next := w_next w;
      w_released := w_released w |},
   Ok tt).

(** Modelled from the spec: [EventPoller::async(task, false)] enqueues the
    task behind the tasks already posted to that poller. *)
Definition async (poller : positive) (task : Task T) : M unit := fun w =>
  ({| w_buffer := w_buffer w; w_storages := w_storages w;
      w_dispatchers := w_dispatchers w; w_readers := w_readers w;
      w_queues :=
        <[poller := default [] (w_queues w !! poller) ++ [task]]>
          (w_queues w);
      w_trace := w_trace w; w_next := w_next w;
      w_released := w_released w |},
   Ok tt).

(** [new]: the address of a fresh object. *)
Definition new_ptr : M positive := fun w =>
  ({| w_buffer := w_buffer w; w_storages := w_storages w;
      w_dispatchers := w_dispatchers w; w_readers := w_readers w;
      w_queues := w_queues w; w_trace := w_trace w;
      w_next := Pos.succ (w_next w);
      w_released := w_released w |},
   Ok (w_next w)).

Fixpoint for_each {A : Type} (l : list A) (body : A -> M unit) : M unit :=
  match l with
  | [] => mret tt
  | a :: l' => body a ;; for_each l' body
  end.

(** *** [RingBuffer]: construction and the size-changed path *)

(** [RingBuffer(size, max_size, cb)]: the world right after construction;
    the storage is the only object allocated. *)
Definition RingBuffer_ctor (size max_size : Z) (cb : option nat) : World T :=
  {| w_buffer :=
       {| RingBuffer._storage := 1%positive;
          RingBuffer._delegate := None;
          RingBuffer._on_reader_changed := cb;
          RingBuffer._dispatcher_map := ∅ |};
     w_storages := {[ 1%positive := _RingStorage.ctor size max_size ]};
     w_dispatchers := ∅; w_readers := ∅; w_released := ∅; w_queues := ∅;
     w_trace := []; w_next := 2%positive |}.

(** [RingBuffer::onSizeChanged(poller, size, add_flag)] *)
Definition RingBuffer_onSizeChanged (poller : EventPoller) (size : Z)
    (add_flag : bool) : M unit :=
  (if size =? 0 then
     b ← get_buffer;
     set_buffer
       (RingBuffer.set_dispatcher_map
          (delete (poller_addr poller) (RingBuffer._dispatcher_map b)) b)
   else mret tt) ;;
  b ← get_buffer;
  match RingBuffer._on_reader_changed b with
  | Some cb => emit [ReaderChangedCB cb (poller_addr poller) size add_flag]
  | None => mret tt
  end.

(** Calling the lambda [onSizeChanged] of [RingBuffer::attach]; the
    buffer of the world is alive, so [weakSelf.lock()] succeeds. *)
Definition call_size_changed (f : size_changed_fn) (size : Z)
    (add_flag : bool) : M unit :=
  match f with
  | BufferSizeChanged poller => RingBuffer_onSizeChanged poller size add_flag
  end.

(** *** [_RingReader] methods on a reader of the heap *)

Definition _RingReader_onRead (this : positive) (data : T) (is_key : bool)
    : M unit :=
  r ← deref w_readers this;
  s ← deref w_storages (_RingReader._storage r);
  set_reader this (_RingReader.onRead s data is_key r).1 ;;
  emit (_RingReader.onRead s data is_key r).2.

Definition _RingReader_setReadCB (this : positive) (cb : option nat)
    : M unit :=
  r ← deref w_readers this;
  s ← deref w_storages (_RingReader._storage r);
  set_reader this (_RingReader.setReadCB cb s r).1 ;;
  emit (_RingReader.setReadCB cb s r).2.

Definition _RingReader_setDetachCB (this : positive) (cb : option nat)
    : M unit :=
  r ← deref w_readers this;
  set_reader this (_RingReader.setDetachCB cb r).

(** *** [_RingReaderDispatcher] methods *)

Definition _RingReaderDispatcher_onSizeChanged (this : positive)
    (add_flag : bool) : M unit :=
  d ← deref w_dispatchers this;
  call_size_changed (_RingReaderDispatcher._on_size_changed d)
    (_RingReaderDispatcher._reader_size d) add_flag.

(** [_reader_map] is an [unordered_map]: the header does not determine
    the order in which a loop over it meets its entries.  That order is
    an argument, [order], of the two functions that run such a loop and
    call back from it ([write] and the destructor); it lists every entry
    of the map once.  (The loops of [RingBuffer::write] and
    [RingBuffer::readerCount] over [_dispatcher_map] call nothing back:
    the first posts one task to each poller's own queue, the second adds
    the counts up, so their results do not depend on the order.) *)
Definition iteration_of (order : list (positive * positive))
    (m : gmap positive positive) : Prop :=
  order ≡ₚ map_to_list m.

(** [write]: the loop runs over the entries of [_reader_map], in the
    order [order]; an entry whose [weak_ptr] has expired (no live reader
    at that address) is erased, otherwise the reader's [onRead] runs; then
    the frame goes into the dispatcher's storage. *)
Definition _RingReaderDispatcher_write (order : list (positive * positive))
    (this : positive) (in_ : T) (is_key : bool) : M unit :=
  deref w_dispatchers this ;;
  for_each order (fun it =>
    w ← get_world;
    match w_readers w !! it.2 with
    | None =>
        d1 ← deref w_dispatchers this;
        set_dispatcher this
          (_RingReaderDispatcher.set_readers
             (Int.wrap (_RingReaderDispatcher._reader_size d1 - 1))
             (delete it.1 (_RingReaderDispatcher._reader_map d1)) d1) ;;
        _RingReaderDispatcher_onSizeChanged this false
    | Some _ => _RingReader_onRead it.2 in_ is_key
    end) ;;
  d2 ← deref w_dispatchers this;
  s ← deref w_storages (_RingReaderDispatcher._storage d2);
  set_storage (_RingReaderDispatcher._storage d2)
    (_RingStorage.write in_ is_key s).

(** [attach(poller, use_cache)], called on thread [cur]. *)
Definition _RingReaderDispatcher_attach (this : positive) (cur : nat)
    (poller : EventPoller) (use_cache : bool) : M positive :=
  if negb (isCurrentThread poller cur) then throw attach_error
  else
    d ← deref w_dispatchers this;
    reader ← new_ptr;
    set_reader reader
      (_RingReader.ctor (_RingReaderDispatcher._storage d) use_cache) ;;
    set_dispatcher this
      (_RingReaderDispatcher.set_readers
         (Int.wrap (_RingReaderDispatcher._reader_size d + 1))
         (<[reader := reader]> (_RingReaderDispatcher._reader_map d)) d) ;;
    _RingReaderDispatcher_onSizeChanged this true ;;
    mret reader.

Definition _RingReaderDispatcher_readerCount (this : positive) : M Z :=
  _RingReaderDispatcher._reader_size <$> deref w_dispatchers this.

(** *** [RingBuffer] methods *)

Definition RingBuffer_write (in_ : T) (is_key : bool) : M unit :=
  b ← get_buffer;
  match RingBuffer._delegate b with
  | Some delegate => emit [DelegateOnWrite delegate in_ is_key]
  | None =>
      s ← deref w_storages (RingBuffer._storage b);
      set_storage (RingBuffer._storage b) (_RingStorage.write in_ is_key s) ;;
      for_each (map_to_list (RingBuffer._dispatcher_map b)) (fun pr =>
        async pr.1 (DispatcherWrite pr.2 in_ is_key))
  end.

Definition RingBuffer_setDelegate (delegate : option nat) : M unit :=
  b ← get_buffer;
  set_buffer (RingBuffer.set_delegate delegate b).

(** [attach(poller, use_cache)], called on thread [cur]. *)
Definition RingBuffer_attach (cur : nat) (poller : EventPoller)
    (use_cache : bool) : M positive :=
  b ← get_buffer;
  dispatcher ←
    match RingBuffer._dispatcher_map b !! poller_addr poller with
    | Some ref => mret ref
    | None =>
        s ← deref w_storages (RingBuffer._storage b);
        storage ← new_ptr;
        set_storage storage (_RingStorage.clone s) ;;
        ref ← new_ptr;
        set_dispatcher ref
          (_RingReaderDispatcher.ctor storage (BufferSizeChanged poller)) ;;
        set_buffer
          (RingBuffer.set_dispatcher_map
             (<[poller_addr poller := ref]> (RingBuffer._dispatcher_map b))
             b) ;;
        mret ref
    end;
  _RingReaderDispatcher_attach dispatcher cur poller use_cache.

Definition RingBuffer_readerCount : M Z :=
  b ← get_buffer;
  foldr
    (fun pr acc =>
       total ← acc;
       n ← _RingReaderDispatcher_readerCount pr.2;
       mret (Int.wrap (total + n)))
    (mret 0) (map_to_list (RingBuffer._dispatcher_map b)).

(** *** Running a posted task *)

(** [order]: the order in which the dispatcher's loop meets the entries
    of its map during this run. *)
Definition run_task (order : list (positive * positive)) (task : Task T)
    : M unit :=
  match task with
  | DispatcherWrite dispatcher in_ is_key =>
      _RingReaderDispatcher_write order dispatcher in_ is_key
  end.

(** The poller takes the oldest task of its queue and runs it. *)
Definition poller_step (order : list (positive * positive))
    (poller : positive) : M unit :=
  w ← get_world;
  match default [] (w_queues w !! poller) with
  | [] => mret tt
  | task :: rest =>
      (fun w1 =>
         ({| w_buffer := w_buffer w1; w_storages := w_storages w1;
             w_dispatchers := w_dispatchers w1; w_readers := w_readers w1;
             w_queues := <[poller := rest]> (w_queues w1);
             w_trace := w_trace w1; w_next := w_next w1;
             w_released := w_released w1 |}, Ok tt)) ;;
      run_task order task
  end.

End world_ops.

(** ** Release of a reader and of a dispatcher *)

Section release_ops.
Context {T : Type}.

(** The last [shared_ptr] to a reader is dropped: from now on
    [weak_ptr::lock()] fails on it, and the object stays where it is until
    it is deleted.  (Its deleter posts the task [reader_dealloc] to the
    poller; when that task runs is the poller's business.)  Nothing
    happens when no [shared_ptr] owns the reader. *)
Definition expire_reader (reader : positive) : M (T:=T) unit := fun w =>
  match w_readers w !! reader with
  | Some r =>
      ({| w_buffer := w_buffer w; w_storages := w_storages w;
          w_dispatchers := w_dispatchers w;
          w_readers := delete reader (w_readers w);
          w_released := <[reader := r]> (w_released w);
          w_queues := w_queues w; w_trace := w_trace w;
          w_next := w_next w |}, Ok tt)
  | None => (w, Ok tt)
  end.

(** [delete ptr] on a reader: the released object at [ptr] is destroyed;
    where there is none (it was deleted already, or a [shared_ptr] still
    owns it) the behaviour is undefined. *)
Definition delete_reader (ptr : positive) : M (T:=T) unit := fun w =>
  match w_released w !! ptr with
  | Some _ =>
      ({| w_buffer := w_buffer w; w_storages := w_storages w;
          w_dispatchers := w_dispatchers w; w_readers := w_readers w;
          w_released := delete ptr (w_released w);
          w_queues := w_queues w; w_trace := w_trace w;
          w_next := w_next w |}, Ok tt)
  | None => (w, Fault)
  end.

(** The task the deleter [on_dealloc] of [_RingReaderDispatcher::attach]
    posts, for the dispatcher it captured weakly and the reader [ptr]:
    when the dispatcher is still there and [_reader_map.erase(ptr)] erases
    an entry, the count is decremented and the observer called; then
    [delete ptr]. *)
Definition reader_dealloc (dispatcher ptr : positive) : M (T:=T) unit :=
  w ← get_world;
  match w_dispatchers w !! dispatcher with
  | Some d =>
      match _RingReaderDispatcher._reader_map d !! ptr with
      | Some _ =>
          set_dispatcher dispatcher
            (_RingReaderDispatcher.set_readers
               (Int.wrap (_RingReaderDispatcher._reader_size d - 1))
               (delete ptr (_RingReaderDispatcher._reader_map d)) d) ;;
          _RingReaderDispatcher_onSizeChanged dispatcher false
      | None => mret tt
      end
  | None => mret tt
  end ;;
  delete_reader ptr.

(** The dispatcher object ceases to exist. *)
Definition free_dispatcher (this : positive) : M (T:=T) unit := fun w =>
  ({| w_buffer := w_buffer w; w_storages := w_storages w;
      w_dispatchers := delete this (w_dispatchers w);
      w_readers := w_readers w; w_released := w_released w;
      w_queues := w_queues w; w_trace := w_trace w; w_next := w_next w |},
   Ok tt).

(** [~_RingReaderDispatcher()]: the map is swapped out, [onDetach] runs on
    every reader of it that is still alive, in the order [order] in which
    the loop meets the entries, and the object is gone. *)
Definition _RingReaderDispatcher_dtor (order : list (positive * positive))
    (this : positive) : M (T:=T) unit :=
  d ← deref w_dispatchers this;
  set_dispatcher this
    (_RingReaderDispatcher.set_readers
       (_RingReaderDispatcher._reader_size d) ∅ d) ;;
  for_each order (fun pr =>
    w ← get_world;
    match w_readers w !! pr.2 with
    | Some reader => emit (_RingReader.onDetach reader)
    | None => mret tt
    end) ;;
  free_dispatcher this.

End release_ops.

(** * Vocabulary of the statements *)

Section vocabulary.
Context {T : Type}.
Implicit Types (s : _RingStorage.t T) (ws c : list (bool * T)).
Implicit Types (w : World T) (poller : EventPoller).

(** Every boundary write of [ws] lies at or before the start of [c]. *)
Definition after_boundaries ws c : Prop :=
  forall pre x post, ws = pre ++ (true, x) :: post ->
    c `suffix_of` (true, x) :: post.

(** What the writes [ws] establish of the cache [s], with the bounds on the
    capacity that keep the [size_t] comparison exact. *)
Definition cache_inv ws s : Prop :=
  _RingStorage.getCache s `suffix_of` ws /\
  after_boundaries ws (_RingStorage.getCache s) /\
  Z.of_nat (length (_RingStorage.getCache s)) <= _RingStorage.maxSize s /\
  0 <= _RingStorage.maxSize s <= Int.max_int.


(** A non-boundary write. *)
Definition nonkey (e : bool * T) : Prop := e.1 = false.

(** State of an auto-sizing cache with ceiling [H]. *)
Definition auto_inv (H : Z) s : Prop :=
  _RingStorage._can_resize s = true /\
  _RingStorage._max_size s = H /\
  (_RingStorage._beset_size s <> 0 ->
   1 <= _RingStorage._beset_size s <= Z.max 1 H /\
   _RingStorage.maxSize s = _RingStorage._beset_size s).

(** Number of boundary writes in a write sequence. *)
Definition key_writes ws : nat := length (filter (fun e => e.1 = true) ws).

(** The counters of [s] witness boundary writes of [ws]. *)
Definition keys_inv ws s : Prop :=
  (_RingStorage._last_key_count s <> 0 -> (1 <= key_writes ws)%nat) /\
  (_RingStorage._beset_size s <> 0 -> (2 <= key_writes ws)%nat).

(** The entries [s] holds after the writes [ws]: a contiguous suffix of
    [ws], which starts at or after every boundary write of [ws] (so at or
    after the most recent one), of length at most the capacity. *)
Definition bounded_boundary_suffix ws s : Prop :=
  _RingStorage.getCache s `suffix_of` ws /\
  (forall pre x post, ws = pre ++ (true, x) :: post ->
     _RingStorage.getCache s `suffix_of` (true, x) :: post) /\
  Z.of_nat (length (_RingStorage.getCache s)) <= _RingStorage.maxSize s.

(** The storage [RingBuffer::_storage] points to. *)
Definition canonical_cache w : option (_RingStorage.t T) :=
  w_storages w !! RingBuffer._storage (w_buffer w).

(** The world [RingBuffer::onSizeChanged] leaves. *)
Definition after_size_changed poller (size : Z) (add_flag : bool) w
    : World T :=
  {| w_buffer :=
       if size =? 0
       then RingBuffer.set_dispatcher_map
              (delete (poller_addr poller)
                 (RingBuffer._dispatcher_map (w_buffer w))) (w_buffer w)
       else w_buffer w;
     w_storages := w_storages w; w_dispatchers := w_dispatchers w;
     w_readers := w_readers w; w_queues := w_queues w;
     w_trace :=
       w_trace w ++
       match RingBuffer._on_reader_changed (w_buffer w) with
       | Some cb => [ReaderChangedCB cb (poller_addr poller) size add_flag]
       | None => []
       end;
     w_next := w_next w;
     w_released := w_released w |}.

(** The world [_RingReaderDispatcher::attach] leaves on the poller's
    thread: the reader at the fresh address, registered in [d]. *)
Definition after_dispatcher_attach (this : positive)
    (d : _RingReaderDispatcher.t) (use_cache : bool) w : World T :=
  let reader := w_next w in
  let size := Int.wrap (_RingReaderDispatcher._reader_size d + 1) in
  let d' :=
    _RingReaderDispatcher.set_readers size
      (<[reader := reader]> (_RingReaderDispatcher._reader_map d)) d in
  match _RingReaderDispatcher._on_size_changed d with
  | BufferSizeChanged captured =>
      after_size_changed captured size true
        {| w_buffer := w_buffer w; w_storages := w_storages w;
           w_dispatchers := <[this := d']> (w_dispatchers w);
           w_readers :=
             <[reader :=
                 _RingReader.ctor (_RingReaderDispatcher._storage d)
                   use_cache]> (w_readers w);
           w_queues := w_queues w; w_trace := w_trace w;
           w_next := Pos.succ (w_next w);
           w_released := w_released w |}
  end.

(** The world in which [RingBuffer::attach] calls the dispatcher's
    [attach], and the dispatcher: the one registered for the poller, or a
    new one on a clone of the canonical storage. *)
Definition with_dispatcher poller w
    : option (World T * positive * _RingReaderDispatcher.t) :=
  match RingBuffer._dispatcher_map (w_buffer w) !! poller_addr poller with
  | Some ref => d ← w_dispatchers w !! ref; Some (w, ref, d)
  | None =>
      s ← w_storages w !! RingBuffer._storage (w_buffer w);
      let storage := w_next w in
      let ref := Pos.succ (w_next w) in
      let d := _RingReaderDispatcher.ctor storage (BufferSizeChanged poller) in
      Some
        ({| w_buffer :=
              RingBuffer.set_dispatcher_map
                (<[poller_addr poller := ref]>
                   (RingBuffer._dispatcher_map (w_buffer w))) (w_buffer w);
            w_storages := <[storage := _RingStorage.clone s]> (w_storages w);
            w_dispatchers := <[ref := d]> (w_dispatchers w);
            w_readers := w_readers w; w_queues := w_queues w;
            w_trace := w_trace w;
            w_next := Pos.succ (Pos.succ (w_next w));
            w_released := w_released w |}, ref, d)
  end.

(** No pointer [RingBuffer::attach] follows for this poller dangles: the
    dispatcher registered for it is a live object or, when none is
    registered, the canonical storage is. *)
Definition attach_ready poller w : Prop :=
  match RingBuffer._dispatcher_map (w_buffer w) !! poller_addr poller with
  | Some ref => is_Some (w_dispatchers w !! ref)
  | None => is_Some (canonical_cache w)
  end.

(** No pointer kept in a buffer, a dispatcher, a reader or a posted task
    dangles. *)
Definition wf_parts (b : RingBuffer.t)
    (ss : gmap positive (_RingStorage.t T))
    (ds : gmap positive _RingReaderDispatcher.t)
    (rs : gmap positive _RingReader.t)
    (qs : gmap positive (list (Task T))) : Prop :=
  is_Some (ss !! RingBuffer._storage b) /\
  (forall p ref, RingBuffer._dispatcher_map b !! p = Some ref ->
     is_Some (ds !! ref)) /\
  (forall ref d, ds !! ref = Some d ->
     is_Some (ss !! _RingReaderDispatcher._storage d)) /\
  (forall rp r, rs !! rp = Some r ->
     is_Some (ss !! _RingReader._storage r)) /\
  (forall p tasks ref x k, qs !! p = Some tasks ->
     DispatcherWrite ref x k ∈ tasks -> is_Some (ds !! ref)).

(** The same, of a world. *)
Definition wf_world w : Prop :=
  wf_parts (w_buffer w) (w_storages w) (w_dispatchers w) (w_readers w)
    (w_queues w).

(** The dispatcher [this] is a live object of a well-formed world. *)
Definition wf_with (this : positive) w : Prop :=
  wf_world w /\ is_Some (w_dispatchers w !! this).

(** [m] returns normally from every world that satisfies [I], and the
    world it leaves satisfies [I]. *)
Definition returns {A : Type} (I : World T -> Prop) (m : M A) : Prop :=
  forall w, I w -> exists w' a, m w = (w', Ok a) /\ I w'.

(** The calls a user of the header, or a poller, makes. *)
Inductive Call : Type :=
| CallWrite (in_ : T) (is_key : bool)
| CallSetDelegate (delegate : option nat)
| CallAttach (cur : nat) (poller : EventPoller) (use_cache : bool)
| CallSetReadCB (reader : positive) (cb : option nat)
| CallSetDetachCB (reader : positive) (cb : option nat)
| CallPollerStep (order : list (positive * positive)) (poller : positive).

Definition run_call (call : Call) w : World T * outcome unit :=
  match call with
  | CallWrite in_ is_key => RingBuffer_write in_ is_key w
  | CallSetDelegate delegate => RingBuffer_setDelegate delegate w
  | CallAttach cur poller use_cache =>
      ((fun _ => tt) <$> RingBuffer_attach cur poller use_cache) w
  | CallSetReadCB reader cb => _RingReader_setReadCB reader cb w
  | CallSetDetachCB reader cb => _RingReader_setDetachCB reader cb w
  | CallPollerStep order poller => poller_step order poller w
  end.

(** A call on a reader is made through a handle [attach] returned; the
    order in which a poller's step runs the loop of a dispatcher is one
    in which the map of that dispatcher can be iterated. *)
Definition call_allowed (call : Call) w : Prop :=
  match call with
  | CallSetReadCB reader _ | CallSetDetachCB reader _ =>
      is_Some (w_readers w !! reader)
  | CallPollerStep order poller =>
      match default [] (w_queues w !! poller) with
      | DispatcherWrite dispatcher _ _ :: _ =>
          forall d, w_dispatchers w !! dispatcher = Some d ->
            iteration_of order (_RingReaderDispatcher._reader_map d)
      | [] => True
      end
  | _ => True
  end.

(** The worlds a program can reach from a constructed buffer. *)
Inductive reachable : World T -> Prop :=
| reachable_ctor size max_size cb :
    reachable (RingBuffer_ctor size max_size cb)
| reachable_call (call : Call) w :
    reachable w -> call_allowed call w -> reachable (run_call call w).1.

End vocabulary.

(** ** Concrete worlds *)

(** A buffer of [nat] frames built as [RingBuffer(0, 10)], and the same
    after the boundary write of frame 1. *)
Definition fresh_buffer : World nat := RingBuffer_ctor 0 10 None.

Definition one_key_written : World nat :=
  (RingBuffer_write 1%nat true fresh_buffer).1.

(** Poller at address 3, whose loop runs on thread 5. *)
Definition poller3 : EventPoller := mkPoller 3 5.

(** Frames go to delegate 9 once it is installed, on a buffer that has a
    dispatcher. *)
Definition delegated : World nat :=
  (RingBuffer_setDelegate (Some 9%nat)
     (RingBuffer_attach 5 poller3 true one_key_written).1).1.

(** * Further vocabulary *)

Section further_vocabulary.
Context {T : Type}.

(** The writes since the most recent boundary write, that write included;
    all the writes when none is a boundary write. *)
Fixpoint since_last_key (ws : list (bool * T)) : list (bool * T) :=
  match ws with
  | [] => []
  | e :: ws' => if existsb fst ws' then since_last_key ws' else e :: ws'
  end.

(** The last [n] elements of a list (all of it when it is shorter). *)
Definition last_n {A : Type} (n : nat) (l : list A) : list A :=
  drop (length l - n) l.

(** What a cache that respects a non-negative capacity holds after the
    writes [ws]. *)
Definition exact_inv (ws : list (bool * T)) (s : _RingStorage.t T) : Prop :=
  _RingStorage.getCache s =
    last_n (Z.to_nat (_RingStorage.maxSize s)) (since_last_key ws) /\
  0 <= _RingStorage.maxSize s <= Int.max_int.

(** State of an auto-sizing cache before its size is settled: the
    capacity is the ceiling, every write was counted, and
    [_last_key_count] tells whether a boundary write was seen. *)
Definition unsettled_inv (H : Z) (ws : list (bool * T))
    (s : _RingStorage.t T) : Prop :=
  _RingStorage._can_resize s = true /\
  (_RingStorage._beset_size s = 0 ->
   _RingStorage.maxSize s = H /\
   _RingStorage._total_count s = Z.of_nat (length ws) /\
   key_writes ws =
     if _RingStorage._last_key_count s =? 0 then 0%nat else 1%nat).

(** The invocations of the read callback [cb] that hand it the frames of
    [frames], in order. *)
Definition deliveries (cb : callback) (frames : list (bool * T))
    : list (Event T) :=
  flat_map (fun e => _RingReader.call_read_cb cb e.2) frames.

(** Number of non-key frames a gating reader with ignored count [c]
    swallows before it is started by force, the frame that starts it
    included, on a storage of capacity [cap]. *)
Definition frames_until_start (cap c : Z) : nat :=
  Z.to_nat (Z.max 1 (cap - c)).

(** The world [w] with other task queues. *)
Definition with_queues (qs : gmap positive (list (Task T))) (w : World T)
    : World T :=
  {| w_buffer := w_buffer w; w_storages := w_storages w;
     w_dispatchers := w_dispatchers w; w_readers := w_readers w;
     w_queues := qs; w_trace := w_trace w; w_next := w_next w;
     w_released := w_released w |}.

(** The queue of poller [p] once the write of [(in_, is_key)] was posted
    to the dispatchers registered in [m]. *)
Definition queue_after_write (m : gmap positive positive) (in_ : T)
    (is_key : bool) (qs : gmap positive (list (Task T))) (p : positive)
    : option (list (Task T)) :=
  match m !! p with
  | Some ref => Some (default [] (qs !! p) ++ [DispatcherWrite ref in_ is_key])
  | None => qs !! p
  end.

(** The body of the loop of [_RingReaderDispatcher::write], for the entry
    [it] of [_reader_map]. *)
Definition dispatch_entry (this : positive) (in_ : T) (is_key : bool)
    (it : positive * positive) : M unit :=
  w ← get_world;
  match w_readers w !! it.2 with
  | None =>
      d1 ← deref w_dispatchers this;
      set_dispatcher this
        (_RingReaderDispatcher.set_readers
           (Int.wrap (_RingReaderDispatcher._reader_size d1 - 1))
           (delete it.1 (_RingReaderDispatcher._reader_map d1)) d1) ;;
      _RingReaderDispatcher_onSizeChanged this false
  | Some _ => _RingReader_onRead it.2 in_ is_key
  end.

(** The reader at [v] once its [onRead] ran on the frame, and the
    callback invocations that run made, in the world [w]. *)
Definition reader_after (in_ : T) (is_key : bool) (w : World T)
    (v : positive) : option _RingReader.t :=
  r ← w_readers w !! v;
  s ← w_storages w !! _RingReader._storage r;
  Some (_RingReader.onRead s in_ is_key r).1.

Definition reader_events (in_ : T) (is_key : bool) (w : World T)
    (v : positive) : list (Event T) :=
  match w_readers w !! v with
  | Some r =>
      match w_storages w !! _RingReader._storage r with
      | Some s => (_RingReader.onRead s in_ is_key r).2
      | None => []
      end
  | None => []
  end.

(** Every reader registered in [m] is alive in [w], and so is the storage
    it points to. *)
Definition all_live (m : gmap positive positive) (w : World T) : Prop :=
  forall key v, m !! key = Some v ->
    exists r, w_readers w !! v = Some r /\
              is_Some (w_storages w !! _RingReader._storage r).

(** The world [w] with other readers and another trace. *)
Definition with_readers (rs : gmap positive _RingReader.t)
    (tr : list (Event T)) (w : World T) : World T :=
  {| w_buffer := w_buffer w; w_storages := w_storages w;
     w_dispatchers := w_dispatchers w; w_readers := rs;
     w_queues := w_queues w; w_trace := tr; w_next := w_next w;
     w_released := w_released w |}.

(** The world [_RingReaderDispatcher::write] leaves when it finds the
    reader of the entry [key] expired: the entry erased from the
    dispatcher [d] at [this], the count decremented, the size-changed
    observer called. *)
Definition after_cleanup (this : positive) (d : _RingReaderDispatcher.t)
    (key : positive) (w : World T) : World T :=
  let size := Int.wrap (_RingReaderDispatcher._reader_size d - 1) in
  match _RingReaderDispatcher._on_size_changed d with
  | BufferSizeChanged captured =>
      after_size_changed captured size false
        {| w_buffer := w_buffer w; w_storages := w_storages w;
           w_dispatchers :=
             <[this :=
                 _RingReaderDispatcher.set_readers size
                   (delete key (_RingReaderDispatcher._reader_map d)) d]>
               (w_dispatchers w);
           w_readers := w_readers w; w_queues := w_queues w;
           w_trace := w_trace w; w_next := w_next w;
           w_released := w_released w |}
  end.

(** The entries of [l] whose reader has expired in [w]. *)
Definition expired_entries (w : World T) (l : list (positive * positive))
    : list (positive * positive) :=
  filter (fun it => w_readers w !! it.2 = None) l.

(** The buffer once the dispatcher of the poller [f] captured was taken
    out of [_dispatcher_map]. *)
Definition unregistered (f : size_changed_fn) (b : RingBuffer.t)
    : RingBuffer.t :=
  match f with
  | BufferSizeChanged captured =>
      RingBuffer.set_dispatcher_map
        (delete (poller_addr captured) (RingBuffer._dispatcher_map b)) b
  end.

(** The detach callbacks the destructor of a dispatcher runs for the
    reader at [v]. *)
Definition detach_events (w : World T) (v : positive) : list (Event T) :=
  match w_readers w !! v with
  | Some r => _RingReader.onDetach r
  | None => []
  end.

(** The body of the loop of [~_RingReaderDispatcher()]. *)
Definition detach_entry (pr : positive * positive) : M (T:=T) unit :=
  w ← get_world;
  match w_readers w !! pr.2 with
  | Some reader => emit (_RingReader.onDetach reader)
  | None => mret tt
  end.

(** The world once the released reader at [ptr] was deleted. *)
Definition after_delete (ptr : positive) (w : World T) : World T :=
  {| w_buffer := w_buffer w; w_storages := w_storages w;
     w_dispatchers := w_dispatchers w; w_readers := w_readers w;
     w_released := delete ptr (w_released w);
     w_queues := w_queues w; w_trace := w_trace w; w_next := w_next w |}.

(** Every object lives at an address [new] has handed out, and every
    dispatcher is as [attach] leaves it: its cache is an object of its
    own (not the canonical one, at [canonical]), its count is the number
    of its entries (as an [int]), and each entry holds, under the address
    of a reader, that reader, which is alive and reads the dispatcher's
    cache. *)
Definition tidy_parts (canonical : positive)
    (ss : gmap positive (_RingStorage.t T))
    (ds : gmap positive _RingReaderDispatcher.t)
    (rs : gmap positive _RingReader.t) (next : positive) : Prop :=
  (forall p, is_Some (ss !! p) -> (p < next)%positive) /\
  (forall p, is_Some (ds !! p) -> (p < next)%positive) /\
  (forall p, is_Some (rs !! p) -> (p < next)%positive) /\
  (forall ref d, ds !! ref = Some d ->
     _RingReaderDispatcher._storage d <> canonical /\
     _RingReaderDispatcher._reader_size d =
       Int.wrap (Z.of_nat (size (_RingReaderDispatcher._reader_map d))) /\
     forall key v, _RingReaderDispatcher._reader_map d !! key = Some v ->
       key = v /\
       exists r, rs !! v = Some r /\
                 _RingReader._storage r = _RingReaderDispatcher._storage d).

(** The same, of a world without dangling pointers. *)
Definition consistent (w : World T) : Prop :=
  wf_world w /\
  tidy_parts (RingBuffer._storage (w_buffer w)) (w_storages w)
    (w_dispatchers w) (w_readers w) (w_next w).

(** The writes of [fs], oldest first, through [RingBuffer::write]. *)
Definition write_all (fs : list (bool * T)) : M unit :=
  for_each fs (fun e => RingBuffer_write e.2 e.1).

(** The sum of the counts of the dispatchers [l] lists. *)
Definition count_sum (w : World T) (l : list (positive * positive)) : Z :=
  foldr
    (fun pr acc =>
       acc + default 0 (_RingReaderDispatcher._reader_size
                          <$> w_dispatchers w !! pr.2))
    0 l.

End further_vocabulary.

(** ** More concrete worlds *)

(** The buffer after key frame 1 was written and a reader (address 4) was
    attached on poller 3 (dispatcher at address 3, its storage at 2). *)
Definition attached : World nat :=
  (RingBuffer_attach 5 poller3 true one_key_written).1.

(** The same once the reader has installed read callback 7 and detach
    callback 8. *)
Definition listening : World nat :=
  (_RingReader_setDetachCB 4 (Some 8%nat)
     (_RingReader_setReadCB 4 (Some 7%nat) attached).1).1.

(** The same once the owner of the reader has let it go. *)
Definition abandoned : World nat := (expire_reader 4 listening).1.

(** The dispatcher at address 3 in these worlds. *)
Definition dispatcher3 : _RingReaderDispatcher.t :=
  _RingReaderDispatcher.mk (BufferSizeChanged poller3) 1 2
    {[ 4%positive := 4%positive ]}.

(** [listening] with a second reader on the same poller (address 5,
    attached without the cache), which has installed read callback 9 and
    detach callback 10; and the dispatcher, still at address 3, with its
    two readers. *)
Definition two_listening : World nat :=
  (_RingReader_setDetachCB 5 (Some 10%nat)
     (_RingReader_setReadCB 5 (Some 9%nat)
        (RingBuffer_attach 5 poller3 false listening).1).1).1.

Definition dispatcher3_two : _RingReaderDispatcher.t :=
  _RingReaderDispatcher.mk (BufferSizeChanged poller3) 2 2
    {[ 4%positive := 4%positive; 5%positive := 5%positive ]}.

(** * Facts *)

(** ** Machine integers *)

Lemma wrap_id z : Int.in_range z -> Int.wrap z = z.
Proof.
  unfold Int.in_range, Int.min_int, Int.max_int, Int.wrap. intros H.
  rewrite Z.mod_small; lia.
Qed.

Lemma wrap_in_range z : Int.in_range (Int.wrap z).
Proof.
  unfold Int.in_range, Int.min_int, Int.max_int, Int.wrap.
  pose proof (Z.mod_pos_bound (z + 2 ^ 31) (2 ^ 32) ltac:(lia)). lia.
Qed.

Lemma to_size_t_id z : 0 <= z <= Int.max_int -> Int.to_size_t z = z.
Proof.
  unfold Int.max_int, Int.to_size_t. intros H. rewrite Z.mod_small; lia.
Qed.

Lemma to_size_t_neg z : Int.min_int <= z < 0 -> 2 ^ 63 <= Int.to_size_t z.
Proof.
  unfold Int.min_int, Int.to_size_t. intros H.
  replace z with (z + 2 ^ 64 + (-1) * 2 ^ 64) by lia.
  rewrite Z.mod_add by lia. rewrite Z.mod_small; lia.
Qed.

(** ** The cache *)

Section cache_facts.
Context {T : Type}.
Implicit Types (s : _RingStorage.t T) (i : _RingStorageInternal.t T).
Implicit Types (ws c : list (bool * T)) (x : T) (k : bool).

Lemma tail_suffix c : tail c `suffix_of` c.
Proof. destruct c as [|e c]; [apply suffix_nil | by apply suffix_cons_r]. Qed.

Lemma after_boundaries_nil c : after_boundaries [] c.
Proof. intros pre x post H. by destruct pre. Qed.

Lemma after_boundaries_tail ws c :
  after_boundaries ws c -> after_boundaries ws (tail c).
Proof.
  intros H pre x post E. etrans; [apply tail_suffix | by eapply H].
Qed.

Lemma after_boundaries_snoc_key ws x :
  after_boundaries (ws ++ [(true, x)]) [(true, x)].
Proof.
  intros pre y post E.
  destruct post as [|e post _] using rev_ind.
  - apply app_inj_tail in E as [_ E]. by rewrite E.
  - rewrite app_comm_cons, app_assoc in E.
    apply app_inj_tail in E as [_ <-].
    by exists ((true, y) :: post).
Qed.

Lemma after_boundaries_snoc ws c x :
  after_boundaries ws c ->
  after_boundaries (ws ++ [(false, x)]) (c ++ [(false, x)]).
Proof.
  intros H pre y post E.
  destruct post as [|e post _] using rev_ind.
  - apply app_inj_tail in E as [_ E]. discriminate.
  - rewrite app_comm_cons, app_assoc in E.
    apply app_inj_tail in E as [E <-].
    rewrite app_comm_cons. apply suffix_app. by eapply H.
Qed.

(** What one write does to a cache that respects its capacity. *)
Lemma internal_write_inv ws c cap x k :
  0 <= cap <= Int.max_int ->
  (k = false ->
   c `suffix_of` ws /\ after_boundaries ws c /\ Z.of_nat (length c) <= cap) ->
  let i' := _RingStorageInternal.write x k (_RingStorageInternal.mk c cap) in
  _RingStorageInternal._data_cache i' `suffix_of` ws ++ [(k, x)] /\
  after_boundaries (ws ++ [(k, x)]) (_RingStorageInternal._data_cache i') /\
  Z.of_nat (length (_RingStorageInternal._data_cache i')) <= cap /\
  _RingStorageInternal._max_size i' = cap.
Proof.
  intros Hcap Hc. cbn -[Int.to_size_t]. rewrite to_size_t_id by done.
  destruct k.
  - clear Hc. cbn [app length].
    assert (Hs : [(true, x)] `suffix_of` ws ++ [(true, x)]) by by exists ws.
    pose proof (after_boundaries_snoc_key ws x) as Hb.
    destruct (Z.gtb_spec (Z.of_nat 1) cap); cbn [tail length].
    + repeat split; [apply suffix_nil | | lia].
      intros ???; intros; apply suffix_nil.
    + repeat split; [done | done | lia].
  - destruct Hc as (Hs & Hb & Hl); [done|].
    assert (Hs' : c ++ [(false, x)] `suffix_of` ws ++ [(false, x)])
      by by apply suffix_app.
    pose proof (after_boundaries_snoc ws c x Hb) as Hb'.
    rewrite length_app. cbn [length].
    destruct (Z.gtb_spec (Z.of_nat (length c + 1)) cap).
    + repeat split.
      * etrans; [apply tail_suffix | done].
      * by apply after_boundaries_tail.
      * destruct c; cbn in *; rewrite ?length_app; cbn; lia.
    + repeat split; [done | done | by rewrite length_app].
Qed.

(** With a negative capacity the [size_t] comparison never holds: nothing
    is evicted. *)
Lemma internal_write_negative_capacity c cap x k :
  Int.min_int <= cap < 0 -> Z.of_nat (length c) + 1 < 2 ^ 63 ->
  _RingStorageInternal._data_cache
    (_RingStorageInternal.write x k (_RingStorageInternal.mk c cap)) =
  (if k then [] else c) ++ [(k, x)].
Proof.
  intros Hcap Hlen. cbn -[Int.to_size_t].
  pose proof (to_size_t_neg cap Hcap) as Hbig.
  destruct (Z.gtb_spec
              (Z.of_nat (length ((if k then [] else c) ++ [(k, x)])))
              (Int.to_size_t cap)) as [Hgt|]; [|done].
  rewrite length_app in Hgt. cbn [length] in Hgt.
  destruct k; cbn [length] in Hgt; lia.
Qed.

(** [computeGopSize] keeps the internal storage, or (on a key frame only)
    replaces it by an empty one of capacity at least [RING_MIN_SIZE]. *)
Lemma computeGopSize_internal k s :
  let s1 := (_RingStorage.computeGopSize k s).2 in
  _RingStorage._storage_internal s1 = _RingStorage._storage_internal s \/
  (k = true /\
   exists b, 1 <= b <= Int.max_int /\
     _RingStorage._storage_internal s1 = _RingStorageInternal.ctor b).
Proof.
  unfold _RingStorage.computeGopSize.
  destruct (negb (_RingStorage._can_resize s) ||
            negb (_RingStorage._beset_size s =? 0)); [by left|].
  destruct k; cbn [negb]; [|by left].
  destruct (_RingStorage._last_key_count s =? 0); [by left|].
  right. split; [done|]. cbn [snd _RingStorage._storage_internal].
  eexists. split; [|reflexivity].
  set (g := Int.wrap (Int.wrap _ * 2)).
  pose proof (wrap_in_range (Int.wrap
    (Int.wrap (_RingStorage._total_count s + 1) -
     _RingStorage._last_key_count s) * 2)) as Hg. fold g in Hg.
  unfold Int.in_range, Int.min_int, Int.max_int, RING_MIN_SIZE in *.
  repeat case_match; lia.
Qed.

Lemma cache_inv_write ws s x k :
  cache_inv ws s -> cache_inv (ws ++ [(k, x)]) (_RingStorage.write x k s).
Proof.
  intros (Hs & Hb & Hl & Hcap).
  unfold cache_inv, _RingStorage.write, _RingStorage.getCache,
    _RingStorage.maxSize, _RingStorageInternal.getCache,
    _RingStorageInternal.maxSize in *.
  cbn [_RingStorage.with_internal _RingStorage._storage_internal].
  destruct (computeGopSize_internal k s) as [E | (-> & b & Hb1 & E)];
    cbn zeta in E; rewrite E.
  - destruct (_RingStorage._storage_internal s) as [c cap].
    cbn [_RingStorageInternal._data_cache _RingStorageInternal._max_size]
      in Hs, Hb, Hl, Hcap.
    destruct (internal_write_inv ws c cap x k) as (H1 & H2 & H3 & H4);
      [done | done |].
    rewrite H4. repeat split; first [assumption | lia].
  - destruct (internal_write_inv ws [] b x true) as (H1 & H2 & H3 & H4);
      [lia | done |].
    unfold _RingStorageInternal.ctor. rewrite H4.
    repeat split; first [assumption | lia].
Qed.

Lemma writes_snoc ws x k s :
  _RingStorage.writes (ws ++ [(k, x)]) s =
  _RingStorage.write x k (_RingStorage.writes ws s).
Proof. unfold _RingStorage.writes. by rewrite fold_left_app. Qed.


Lemma cache_inv_writes ws s :
  cache_inv [] s -> cache_inv ws (_RingStorage.writes ws s).
Proof.
  intros H0. induction ws as [|[k x] ws IH] using rev_ind; [done|].
  rewrite writes_snoc. by apply cache_inv_write.
Qed.

Lemma cache_inv_ctor size max_size :
  Int.in_range size -> Int.in_range max_size ->
  (size <= 0 -> 0 <= max_size) ->
  cache_inv [] (_RingStorage.ctor (T:=T) size max_size).
Proof.
  unfold Int.in_range, Int.min_int. intros Hs Hm H0.
  unfold cache_inv, _RingStorage.ctor.
  destruct (Z.leb_spec size 0); cbn; repeat split;
    try apply suffix_nil; try apply after_boundaries_nil; lia.
Qed.

End cache_facts.

(** ** The adaptive size *)

Section sizing_facts.
Context {T : Type}.
Implicit Types (s : _RingStorage.t T) (ws : list (bool * T)) (x : T).

Lemma internal_write_max_size x k (i : _RingStorageInternal.t T) :
  _RingStorageInternal._max_size (_RingStorageInternal.write x k i) =
  _RingStorageInternal._max_size i.
Proof. reflexivity. Qed.

(** A cache built with a given size never reads [_max_size]. *)
Lemma computeGopSize_fixed k s :
  _RingStorage._can_resize s = false ->
  _RingStorage.computeGopSize k s = (false, s).
Proof. intros H. unfold _RingStorage.computeGopSize. by rewrite H. Qed.

(** Once [_beset_size] is set, or when the size was given, a write leaves
    every sizing member and the capacity alone. *)
Lemma write_settled x k s :
  _RingStorage._can_resize s = false \/ _RingStorage._beset_size s <> 0 ->
  let s' := _RingStorage.write x k s in
  _RingStorage._beset_size s' = _RingStorage._beset_size s /\
  _RingStorage._can_resize s' = _RingStorage._can_resize s /\
  _RingStorage.maxSize s' = _RingStorage.maxSize s.
Proof.
  intros H. unfold _RingStorage.write, _RingStorage.computeGopSize.
  assert (negb (_RingStorage._can_resize s) ||
          negb (_RingStorage._beset_size s =? 0) = true) as ->.
  { destruct H as [-> | H]; [done|].
    apply Z.eqb_neq in H. rewrite H. apply orb_true_r. }
  done.
Qed.

Lemma writes_settled ws s :
  _RingStorage._can_resize s = false \/ _RingStorage._beset_size s <> 0 ->
  let s' := _RingStorage.writes ws s in
  _RingStorage._beset_size s' = _RingStorage._beset_size s /\
  _RingStorage._can_resize s' = _RingStorage._can_resize s /\
  _RingStorage.maxSize s' = _RingStorage.maxSize s.
Proof.
  revert s. induction ws as [|[k x] ws IH]; intros s H; [done|].
  cbn zeta. unfold _RingStorage.writes. cbn [fold_left fst snd].
  destruct (write_settled x k s H) as (Hb & Hc & Hm).
  fold (_RingStorage.writes ws (_RingStorage.write x k s)).
  destruct (IH (_RingStorage.write x k s)) as (Hb' & Hc' & Hm').
  { rewrite Hb, Hc. done. }
  cbn zeta in *. rewrite Hb', Hc', Hm'. done.
Qed.

Lemma auto_inv_ctor size H :
  size <= 0 -> auto_inv H (_RingStorage.ctor (T:=T) size H).
Proof.
  intros Hs. unfold _RingStorage.ctor.
  destruct (Z.leb_spec size 0); [|lia]. by split_and!.
Qed.

Lemma auto_inv_write H x k s :
  auto_inv H s -> auto_inv H (_RingStorage.write x k s).
Proof.
  intros (Hc & Hm & Hb).
  destruct (decide (_RingStorage._beset_size s = 0)) as [E | NE].
  - unfold auto_inv, _RingStorage.write, _RingStorage.computeGopSize,
      _RingStorage.maxSize.
    rewrite Hc, E, Hm. cbn [negb orb Z.eqb].
    unfold RING_MIN_SIZE.
    destruct k; cbn [negb]; [|by cbn].
    destruct (_RingStorage._last_key_count s =? 0); [by cbn|].
    cbn. split_and!; [done.. |]. intros _.
    repeat case_match; lia.
  - destruct (write_settled x k s (or_intror NE)) as (E1 & E2 & E3).
    cbn zeta in *. unfold auto_inv. rewrite E1, E2, E3.
    split_and!; [done | | done].
    unfold _RingStorage.write, _RingStorage.computeGopSize.
    apply Z.eqb_neq in NE. rewrite Hc, NE. done.
Qed.

Lemma auto_inv_writes H ws s :
  auto_inv H s -> auto_inv H (_RingStorage.writes ws s).
Proof.
  intros H0. induction ws as [|[k x] ws IH] using rev_ind; [done|].
  rewrite writes_snoc. by apply auto_inv_write.
Qed.


End sizing_facts.

(** ** Boundary writes seen so far *)

Section key_count.
Context {T : Type}.
Implicit Types (s : _RingStorage.t T) (ws : list (bool * T)).

Lemma key_writes_snoc ws k (x : T) :
  key_writes (ws ++ [(k, x)]) =
  (key_writes ws + if k then 1 else 0)%nat.
Proof.
  unfold key_writes. rewrite filter_app, length_app.
  by destruct k.
Qed.

Lemma keys_inv_write ws s x k :
  keys_inv ws s -> keys_inv (ws ++ [(k, x)]) (_RingStorage.write x k s).
Proof.
  intros [Hl Hb]. unfold keys_inv. rewrite key_writes_snoc.
  unfold _RingStorage.write, _RingStorage.computeGopSize.
  destruct (negb (_RingStorage._can_resize s) ||
            negb (_RingStorage._beset_size s =? 0)); cbn.
  { split; intros H; [apply Hl in H | apply Hb in H]; lia. }
  destruct k; cbn.
  - destruct (Z.eqb_spec (_RingStorage._last_key_count s) 0); cbn.
    + split; intros H; [lia | apply Hb in H; lia].
    + split; intros H; apply Hl in n; lia.
  - split; intros H; [apply Hl in H | apply Hb in H]; lia.
Qed.

Lemma keys_inv_writes size max_size ws :
  keys_inv ws (_RingStorage.writes ws (_RingStorage.ctor size max_size)).
Proof.
  induction ws as [|[k x] ws IH] using rev_ind.
  - unfold _RingStorage.ctor. by destruct (size <=? 0).
  - rewrite writes_snoc. by apply keys_inv_write.
Qed.

End key_count.

(** * Properties of the cache *)

Section cache_properties.
Context {T : Type}.
Implicit Types (s : _RingStorage.t T) (ws : list (bool * T)).

(** C3, amended: for every cache built with [int] arguments whose
    capacity is not negative (a positive [size], or [size <= 0] and
    [max_size >= 0]) and every sequence of writes, the stored entries are
    a contiguous suffix of the write sequence that starts at or after the
    most recent boundary write, and there are at most [maxSize()] of
    them. *)
Theorem C3_boundary_suffix size max_size ws :
  Int.in_range size -> Int.in_range max_size ->
  (size <= 0 -> 0 <= max_size) ->
  bounded_boundary_suffix ws
    (_RingStorage.writes ws (_RingStorage.ctor size max_size)).
Proof.
  intros Hs Hm H0.
  destruct (cache_inv_writes ws _ (cache_inv_ctor size max_size Hs Hm H0))
    as (H1 & H2 & H3 & _).
  by split_and!.
Qed.

(** C6, amended: in an auto-sizing cache with ceiling [H], once
    [_beset_size] is set, at least two boundary writes have been made, its
    value lies in [[1, max(1, H)]] (so in [[1, H]] whenever [H >= 1]), and
    no later write changes it or the capacity. *)
Theorem C6_target_size_fixed size H ws ws' :
  size <= 0 ->
  _RingStorage._beset_size
    (_RingStorage.writes ws (_RingStorage.ctor (T:=T) size H)) <> 0 ->
  let s := _RingStorage.writes ws (_RingStorage.ctor size H) in
  (2 <= key_writes ws)%nat /\
  1 <= _RingStorage._beset_size s <= Z.max 1 H /\
  (1 <= H -> _RingStorage._beset_size s <= H) /\
  _RingStorage._beset_size (_RingStorage.writes ws' s) =
    _RingStorage._beset_size s /\
  _RingStorage.maxSize (_RingStorage.writes ws' s) =
    _RingStorage.maxSize s.
Proof.
  intros Hs Hset s.
  destruct (auto_inv_writes H ws _ (auto_inv_ctor size H Hs))
    as (_ & _ & Hb).
  destruct (Hb Hset) as [Hr _]. fold s in Hr.
  destruct (writes_settled ws' s (or_intror Hset)) as (E1 & _ & E2).
  destruct (keys_inv_writes size H ws) as [_ Hk].
  split_and!; [by apply Hk | lia | lia | lia | done | done].
Qed.


End cache_properties.

Lemma C3_boundary_suffix_witness :
  let ws := [(true, 1%nat); (false, 2%nat); (false, 3%nat); (false, 4%nat);
             (true, 5%nat); (false, 6%nat)] in
  bounded_boundary_suffix ws
    (_RingStorage.writes ws (_RingStorage.ctor 0 3)).
Proof.
  apply C3_boundary_suffix;
    unfold Int.in_range, Int.min_int, Int.max_int; lia.
Defined.

(** C3 as stated fails for a cache of negative capacity: built with
    [size = 0] and [max_size = -1], it holds one entry after a boundary
    write, and its capacity is [-1]. *)
Lemma C3_counterexample :
  let s := _RingStorage.writes [(true, tt)] (_RingStorage.ctor 0 (-1)) in
  _RingStorage.getCache s = [(true, tt)] /\
  _RingStorage.maxSize s = -1 /\
  ~ bounded_boundary_suffix [(true, tt)] s.
Proof.
  cbn zeta. split_and!; [reflexivity | reflexivity |].
  intros (_ & _ & H). vm_compute in H. by apply H.
Qed.

Lemma C6_target_size_fixed_witness :
  let s := _RingStorage.writes [(true, 1%nat); (false, 2%nat); (true, 3%nat)]
             (_RingStorage.ctor 0 10) in
  let ws' := [(false, 4%nat); (true, 5%nat); (true, 6%nat)] in
  (2 <= key_writes [(true, 1%nat); (false, 2%nat); (true, 3%nat)])%nat /\
  1 <= _RingStorage._beset_size s <= Z.max 1 10 /\
  (1 <= 10 -> _RingStorage._beset_size s <= 10) /\
  _RingStorage._beset_size (_RingStorage.writes ws' s) =
    _RingStorage._beset_size s /\
  _RingStorage.maxSize (_RingStorage.writes ws' s) =
    _RingStorage.maxSize s.
Proof.
  apply (C6_target_size_fixed 0 10
           [(true, 1%nat); (false, 2%nat); (true, 3%nat)]
           [(false, 4%nat); (true, 5%nat); (true, 6%nat)]).
  - lia.
  - vm_compute. discriminate.
Defined.

(** C6 as stated fails when the ceiling is below [RING_MIN_SIZE]: with
    [max_size = 0], two boundary writes set [_beset_size] to 1, outside
    [[1, 0]]. *)
Lemma C6_counterexample :
  let s := _RingStorage.writes [(true, tt); (true, tt)]
             (_RingStorage.ctor 0 0) in
  _RingStorage._beset_size s = 1 /\
  ~ (1 <= _RingStorage._beset_size s <= 0).
Proof.
  cbn zeta. split; [reflexivity|]. vm_compute. intros [_ H]. by apply H.
Qed.



(** * The canonical cache of the buffer *)

Section buffer_cache.
Context {T : Type}.

(** C8: on [RingBuffer(0, 10)], the writes A (key), B, C, D (key), E all
    return normally; the capacity of the canonical cache is 10 and
    [_beset_size] unset after A, B, C; the write of D sets both to 6; after
    E the cache holds exactly [(true, D); (false, E)] and its capacity is
    still 6. *)
Theorem C8_scenario (A B C D E : T) :
  let w0 := RingBuffer_ctor 0 10 None in
  let r3 := (RingBuffer_write A true ;; RingBuffer_write B false ;;
             RingBuffer_write C false) w0 in
  let r4 := RingBuffer_write D true r3.1 in
  let r5 := RingBuffer_write E false r4.1 in
  (r3.2 = Ok tt /\ r4.2 = Ok tt /\ r5.2 = Ok tt) /\
  (_RingStorage.maxSize <$> canonical_cache r3.1 = Some 10 /\
   _RingStorage._beset_size <$> canonical_cache r3.1 = Some 0) /\
  (_RingStorage.maxSize <$> canonical_cache r4.1 = Some 6 /\
   _RingStorage._beset_size <$> canonical_cache r4.1 = Some 6) /\
  (_RingStorage.getCache <$> canonical_cache r5.1 =
     Some [(true, D); (false, E)] /\
   _RingStorage.maxSize <$> canonical_cache r5.1 = Some 6 /\
   _RingStorage._beset_size <$> canonical_cache r5.1 = Some 6).
Proof. cbn zeta. split_and!; vm_compute; reflexivity. Qed.

End buffer_cache.

(** * Properties of the reader *)

Section reader_properties.
Context {T : Type}.
Implicit Types (storage : _RingStorage.t T) (r : _RingReader.t).

(** A reader that streams (or does not gate) hands every frame to its
    read callback and keeps its state. *)
Lemma onRead_streaming storage data is_key r :
  _RingReader._start_on_read r = true \/ _RingReader._use_cache r = false ->
  _RingReader.onRead storage data is_key r =
  (r, _RingReader.call_read_cb (_RingReader._read_cb r) data).
Proof.
  intros [H | H]; unfold _RingReader.onRead; rewrite H; [done|].
  by rewrite orb_true_r.
Qed.

(** A gating reader starts on a key frame and delivers it. *)
Lemma onRead_key storage data r :
  _RingReader._use_cache r = true -> _RingReader._start_on_read r = false ->
  _RingReader.onRead storage data true r =
  (_RingReader.set_start_on_read true r,
   _RingReader.call_read_cb (_RingReader._read_cb r) data).
Proof. intros H1 H2. unfold _RingReader.onRead. by rewrite H1, H2. Qed.

(** C1, amended: when a gating reader gets a non-key frame and the
    incremented [_ignored_count] reaches the capacity of the dispatcher's
    storage, the reader switches to streaming ([_start_on_read] is set);
    that frame is counted as ignored and is not handed to the read
    callback; every frame after it is. *)
Theorem C1_forced_start storage data r :
  _RingReader._use_cache r = true ->
  _RingReader._start_on_read r = false ->
  Int.wrap (_RingReader._ignored_count r + 1) >= _RingStorage.maxSize storage ->
  let r1 := (_RingReader.onRead storage data false r).1 in
  (_RingReader.onRead storage data false r).2 = [] /\
  _RingReader._start_on_read r1 = true /\
  _RingReader._ignored_count r1 = Int.wrap (_RingReader._ignored_count r + 1) /\
  _RingReader._read_cb r1 = _RingReader._read_cb r /\
  forall data' is_key,
    _RingReader.onRead storage data' is_key r1 =
    (r1, _RingReader.call_read_cb (_RingReader._read_cb r) data').
Proof.
  intros Hc Hs Hreach. unfold _RingReader.onRead at 1 2.
  rewrite Hc, Hs. cbn [negb orb andb].
  cbn [_RingReader.set_ignored_count _RingReader._ignored_count].
  destruct (Z.geb_spec (Int.wrap (_RingReader._ignored_count r + 1))
              (_RingStorage.maxSize storage)) as [_ | Hlt]; [|lia].
  cbn. split_and!; try done.
Qed.

(** C9: installing an empty read callback only replaces [_read_cb] by the
    no-op: the gating flag, the ignored count and the other members keep
    their values, and no callback runs (no replay).  Installing a callback
    [f] is what clears the gating state; the result is that of [flushGop]
    on the cleared reader, which, for a reader created with [use_cache],
    is the replay of the whole cache through [onRead]. *)
Theorem C9_null_read_cb storage r cb :
  match cb with
  | None =>
      let r' := (_RingReader.setReadCB None storage r).1 in
      _RingReader.setReadCB None storage r =
        (_RingReader.set_read_cb Noop r, []) /\
      _RingReader._read_cb r' = Noop /\
      _RingReader._ignored_count r' = _RingReader._ignored_count r /\
      _RingReader._start_on_read r' = _RingReader._start_on_read r /\
      _RingReader._use_cache r' = _RingReader._use_cache r /\
      _RingReader._detach_cb r' = _RingReader._detach_cb r /\
      _RingReader._storage r' = _RingReader._storage r
  | Some f =>
      let r0 := _RingReader.mk (User f) (_RingReader._detach_cb r)
                  (_RingReader._storage r) (_RingReader._use_cache r)
                  false 0 in
      _RingReader.setReadCB (Some f) storage r =
      if _RingReader._use_cache r
      then _RingReader.replay storage (_RingStorage.getCache storage) r0
      else (r0, [])
  end.
Proof.
  destruct cb as [f|]; cbn zeta.
  - unfold _RingReader.setReadCB, _RingReader.flushGop.
    destruct r as [rcb dcb st uc started ignored]. cbn. by destruct uc.
  - by split_and!.
Qed.

End reader_properties.

Lemma C1_forced_start_witness :
  let storage := _RingStorage.ctor 0 2 in
  let r := _RingReader.mk (User 7) Noop 1%positive true false 1 in
  let r1 := (_RingReader.onRead storage 42%nat false r).1 in
  (_RingReader.onRead storage 42%nat false r).2 = [] /\
  _RingReader._start_on_read r1 = true /\
  _RingReader._ignored_count r1 = Int.wrap (_RingReader._ignored_count r + 1) /\
  _RingReader._read_cb r1 = _RingReader._read_cb r /\
  forall data' is_key,
    _RingReader.onRead storage data' is_key r1 =
    (r1, _RingReader.call_read_cb (_RingReader._read_cb r) data').
Proof.
  apply (C1_forced_start (_RingStorage.ctor 0 2) 42%nat
           (_RingReader.mk (User 7) Noop 1%positive true false 1)).
  - reflexivity.
  - reflexivity.
  - vm_compute. discriminate.
Defined.

(** C1 as stated fails: a gating reader with read callback 7 on a storage
    of capacity 1 gets the non-key frame 42; the incremented count is 1 and
    reaches the capacity, the reader switches to streaming, and the
    callback is not invoked on 42. *)
Lemma C1_counterexample :
  let storage := _RingStorage.ctor 0 1 in
  let r := _RingReader.set_read_cb (User 7)
             (_RingReader.ctor 1%positive true) in
  let res := _RingReader.onRead storage 42%nat false r in
  _RingStorage.maxSize storage = 1 /\
  _RingReader._ignored_count res.1 = 1 /\
  _RingReader._start_on_read res.1 = true /\
  res.2 = [] /\
  res.2 <> [ReadCB 7 42%nat].
Proof. cbn zeta. split_and!; try reflexivity. vm_compute. discriminate. Qed.

(** * Properties of attach and write *)

Ltac unfold_M :=
  unfold mbind, M_bind, mret, M_ret, get_world, get_buffer, throw, deref,
    set_buffer, set_storage, set_dispatcher, set_reader, emit, async,
    new_ptr in *.

Section attach_properties.
Context {T : Type}.
Implicit Types (w : World T) (poller : EventPoller).


Lemma onSizeChanged_run poller size add_flag w :
  RingBuffer_onSizeChanged poller size add_flag w =
  (after_size_changed poller size add_flag w, Ok tt).
Proof.
  unfold RingBuffer_onSizeChanged, after_size_changed. unfold_M.
  destruct w as [b ss ds rs rl qs tr nx]. cbn.
  destruct (size =? 0); cbn;
    destruct (RingBuffer._on_reader_changed b); cbn;
    rewrite ?app_nil_r; done.
Qed.

(** [_RingReaderDispatcher::attach] off the poller's thread: the exception,
    and the world as it was. *)
Lemma dispatcher_attach_foreign this cur poller use_cache w :
  isCurrentThread poller cur = false ->
  _RingReaderDispatcher_attach this cur poller use_cache w =
  (w, Throw attach_error).
Proof. intros H. unfold _RingReaderDispatcher_attach. by rewrite H. Qed.

Lemma dispatcher_attach_own this cur poller use_cache w d :
  isCurrentThread poller cur = true ->
  w_dispatchers w !! this = Some d ->
  _RingReaderDispatcher_attach this cur poller use_cache w =
  (after_dispatcher_attach this d use_cache w, Ok (w_next w)).
Proof.
  intros H Hd. unfold _RingReaderDispatcher_attach. rewrite H. cbn [negb].
  unfold after_dispatcher_attach, _RingReaderDispatcher_onSizeChanged,
    call_size_changed.
  unfold_M. rewrite Hd. cbn. rewrite lookup_insert_eq.
  cbn. destruct (_RingReaderDispatcher._on_size_changed d) as [captured].
  by rewrite onSizeChanged_run.
Qed.

Lemma with_dispatcher_lookup poller w w1 ref d :
  with_dispatcher poller w = Some (w1, ref, d) ->
  w_dispatchers w1 !! ref = Some d.
Proof.
  unfold with_dispatcher. intros H.
  destruct (RingBuffer._dispatcher_map (w_buffer w) !! poller_addr poller).
  - destruct (w_dispatchers w !! p) eqn:E; by simplify_eq/=.
  - destruct (w_storages w !! _) eqn:E; simplify_eq/=.
    apply lookup_insert_eq.
Qed.

Lemma buffer_attach_run cur poller use_cache w w1 ref d :
  with_dispatcher poller w = Some (w1, ref, d) ->
  RingBuffer_attach cur poller use_cache w =
  _RingReaderDispatcher_attach ref cur poller use_cache w1.
Proof.
  unfold with_dispatcher, RingBuffer_attach. intros H. unfold_M. cbn.
  destruct (RingBuffer._dispatcher_map (w_buffer w) !! poller_addr poller).
  - destruct (w_dispatchers w !! p) eqn:E; simplify_eq/=.
    by destruct w1.
  - destruct (w_storages w !! _) eqn:E; simplify_eq/=. done.
Qed.

Lemma attach_ready_with_dispatcher poller w :
  attach_ready poller w ->
  exists w1 ref d,
    with_dispatcher poller w = Some (w1, ref, d) /\
    w_readers w1 = w_readers w /\ w_trace w1 = w_trace w /\
    (forall dp d1, w_dispatchers w1 !! dp = Some d1 ->
       w_dispatchers w !! dp = Some d1 \/ (dp = ref /\ d1 = d /\
         _RingReaderDispatcher._reader_map d = ∅ /\
         _RingReaderDispatcher._reader_size d = 0)).
Proof.
  unfold attach_ready, with_dispatcher, canonical_cache.
  destruct (RingBuffer._dispatcher_map (w_buffer w) !! poller_addr poller).
  - intros [d Hd]. rewrite Hd. cbn. exists w, p, d. split_and!; auto.
  - intros [s Hs]. rewrite Hs. cbn. do 3 eexists.
    split_and!; [done.. |]. cbn. intros dp d1 Hl.
    destruct (decide (dp = Pos.succ (w_next w))) as [-> | Hne].
    + rewrite lookup_insert_eq in Hl. right. by simplify_eq.
    + rewrite lookup_insert_ne in Hl by done. by left.
Qed.

(** C4: [attach] called off the poller's own thread fails with the
    [runtime_error] of the header, creates no reader, notifies nobody and
    registers no reader in any dispatcher (a dispatcher is as it was, or is
    the new one, with no reader); called on the poller's thread it returns
    the handle of the one reader it creates, which it registers in the
    poller's dispatcher. *)
Theorem C4_attach_thread_affinity cur poller use_cache w :
  attach_ready poller w ->
  let res := RingBuffer_attach cur poller use_cache w in
  if isCurrentThread poller cur then
    exists reader this d,
      res.2 = Ok reader /\
      w_readers res.1 =
        <[reader :=
            _RingReader.ctor (_RingReaderDispatcher._storage d) use_cache]>
          (w_readers w) /\
      w_dispatchers res.1 !! this = Some d /\
      _RingReaderDispatcher._reader_map d !! reader = Some reader
  else
    res.2 = Throw attach_error /\
    w_readers res.1 = w_readers w /\
    w_trace res.1 = w_trace w /\
    forall dp d, w_dispatchers res.1 !! dp = Some d ->
      w_dispatchers w !! dp = Some d \/
      (_RingReaderDispatcher._reader_map d = ∅ /\
       _RingReaderDispatcher._reader_size d = 0).
Proof.
  intros Hready. cbn zeta.
  destruct (attach_ready_with_dispatcher poller w Hready)
    as (w1 & ref & d & Hw & Hr & Ht & Hd).
  rewrite (buffer_attach_run cur poller use_cache w w1 ref d Hw).
  destruct (isCurrentThread poller cur) eqn:Hthread.
  - rewrite (dispatcher_attach_own ref cur poller use_cache w1 d Hthread
               (with_dispatcher_lookup poller w w1 ref d Hw)).
    exists (w_next w1), ref,
      (_RingReaderDispatcher.set_readers
         (Int.wrap (_RingReaderDispatcher._reader_size d + 1))
         (<[w_next w1 := w_next w1]> (_RingReaderDispatcher._reader_map d))
         d).
    cbn [fst snd]. unfold after_dispatcher_attach.
    destruct (_RingReaderDispatcher._on_size_changed d) as [captured].
    cbn. rewrite Hr. split_and!; [done | done | apply lookup_insert_eq |].
    cbn. apply lookup_insert_eq.
  - rewrite (dispatcher_attach_foreign ref cur poller use_cache w1 Hthread).
    cbn [fst snd]. split_and!; [done.. |].
    intros dp d1 Hl. destruct (Hd dp d1 Hl) as [? | (_ & -> & ? & ?)]; auto.
Qed.




Lemma reader_setReadCB_run this cb w r s :
  w_readers w !! this = Some r ->
  w_storages w !! _RingReader._storage r = Some s ->
  _RingReader_setReadCB this cb w =
  ({| w_buffer := w_buffer w; w_storages := w_storages w;
      w_dispatchers := w_dispatchers w;
      w_readers := <[this := (_RingReader.setReadCB cb s r).1]> (w_readers w);
      w_queues := w_queues w;
      w_trace := w_trace w ++ (_RingReader.setReadCB cb s r).2;
      w_next := w_next w;
      w_released := w_released w |}, Ok tt).
Proof.
  intros Hr Hs. unfold _RingReader_setReadCB. unfold_M.
  rewrite Hr. cbn. by rewrite Hs.
Qed.


(** C7: with a delegate installed, [write] hands the frame and the flag to
    the delegate's [onWrite] and does nothing else: the world is the one
    before the call with that invocation appended to the trace; the
    canonical cache, every other storage and every poller's queue are as
    they were. *)
Theorem C7_delegate_bypass delegate in_ is_key w :
  RingBuffer._delegate (w_buffer w) = Some delegate ->
  let res := RingBuffer_write in_ is_key w in
  res =
    ({| w_buffer := w_buffer w; w_storages := w_storages w;
        w_dispatchers := w_dispatchers w; w_readers := w_readers w;
        w_queues := w_queues w;
        w_trace := w_trace w ++ [DelegateOnWrite delegate in_ is_key];
        w_next := w_next w;
        w_released := w_released w |}, Ok tt) /\
  canonical_cache res.1 = canonical_cache w /\
  w_storages res.1 = w_storages w /\
  w_queues res.1 = w_queues w.
Proof.
  intros H. cbn zeta. unfold RingBuffer_write. unfold_M. cbn.
  rewrite H. done.
Qed.

End attach_properties.

(** ** At concrete worlds *)

Lemma C4_attach_thread_affinity_witness :
  attach_ready poller3 fresh_buffer /\
  (RingBuffer_attach 4 poller3 true fresh_buffer).2 = Throw attach_error /\
  (RingBuffer_attach 5 poller3 true fresh_buffer).2 = Ok 4%positive.
Proof.
  assert (H : attach_ready poller3 fresh_buffer) by (by eexists).
  split_and!; [exact H | |].
  - pose proof (C4_attach_thread_affinity 4 poller3 true fresh_buffer H) as H4.
    cbn zeta in H4. exact (proj1 H4).
  - reflexivity.
Defined.




Lemma C7_delegate_bypass_witness :
  let res := RingBuffer_write 2%nat false delegated in
  res.2 = Ok tt /\
  w_trace res.1 = w_trace delegated ++ [DelegateOnWrite 9 2%nat false] /\
  canonical_cache res.1 = canonical_cache delegated /\
  w_queues res.1 = w_queues delegated.
Proof.
  destruct (C7_delegate_bypass 9 2%nat false delegated) as (H1 & H2 & _ & H3);
    [reflexivity |].
  cbn zeta in *. rewrite H1. cbn [fst snd w_trace]. rewrite H1 in H2, H3.
  split_and!; [reflexivity | reflexivity | exact H2 | exact H3].
Defined.

(** Without the delegate the same write reaches the cache and the poller's
    queue. *)
Example write_without_delegate :
  let w := (RingBuffer_attach 5 poller3 true one_key_written).1 in
  let res := RingBuffer_write 2%nat false w in
  (_RingStorage.getCache <$> canonical_cache res.1)
    = Some [(true, 1%nat); (false, 2%nat)] /\
  w_queues res.1 !! 3%positive = Some [DispatcherWrite 3%positive 2%nat false].
Proof. cbn zeta. split; reflexivity. Qed.

(** The scenario of C1 end to end: capacity 1, a reader installs callback
    7 before any write; the non-key frame 42 is written and dispatched: the
    callback has not run, the reader streams; the next non-key frame 43 is
    delivered. *)
Example forced_start_end_to_end :
  let run :=
    reader ← RingBuffer_attach 5 poller3 true;
    _RingReader_setReadCB reader (Some 7%nat) ;;
    RingBuffer_write 42%nat false ;;
    poller_step [(reader, reader)] 3%positive ;;
    w1 ← get_world;
    RingBuffer_write 43%nat false ;;
    poller_step [(reader, reader)] 3%positive ;;
    w2 ← get_world;
    mret (w_trace w1, _RingReader._start_on_read <$> w_readers w1 !! reader,
          w_trace w2) in
  (run (RingBuffer_ctor 0 1 None)).2 = Ok ([], Some true, [ReadCB 7 43%nat]).
Proof. vm_compute. reflexivity. Qed.

(** * No call on a reachable world follows a dangling pointer *)

Section world_safety.
Context {T : Type}.
Implicit Types (w : World T) (b : RingBuffer.t).
Implicit Types (ss : gmap positive (_RingStorage.t T)).
Implicit Types (ds : gmap positive _RingReaderDispatcher.t).
Implicit Types (rs : gmap positive _RingReader.t).
Implicit Types (qs : gmap positive (list (Task T))).

Lemma wf_insert_storage b ss ds rs qs p s :
  wf_parts b ss ds rs qs -> wf_parts b (<[p := s]> ss) ds rs qs.
Proof.
  intros (H1 & H2 & H3 & H4 & H5).
  split_and!; [| done | | | done]; intros;
    apply lookup_insert_is_Some'; eauto.
Qed.

Lemma wf_insert_dispatcher b ss ds rs qs p d :
  is_Some (ss !! _RingReaderDispatcher._storage d) ->
  wf_parts b ss ds rs qs -> wf_parts b ss (<[p := d]> ds) rs qs.
Proof.
  intros Hd (H1 & H2 & H3 & H4 & H5). split_and!; [done | | | done |].
  - intros. apply lookup_insert_is_Some'; eauto.
  - intros ref d1 [[-> ->] | [_ Hl]]%lookup_insert_Some; eauto.
  - intros. apply lookup_insert_is_Some'; eauto.
Qed.

Lemma wf_insert_reader b ss ds rs qs p r :
  is_Some (ss !! _RingReader._storage r) ->
  wf_parts b ss ds rs qs -> wf_parts b ss ds (<[p := r]> rs) qs.
Proof.
  intros Hr (H1 & H2 & H3 & H4 & H5). split_and!; [done.. | | done].
  intros rp r1 [[-> ->] | [_ Hl]]%lookup_insert_Some; eauto.
Qed.

Lemma wf_register b ss ds rs qs p ref :
  is_Some (ds !! ref) ->
  wf_parts b ss ds rs qs ->
  wf_parts
    (RingBuffer.set_dispatcher_map
       (<[p := ref]> (RingBuffer._dispatcher_map b)) b) ss ds rs qs.
Proof.
  intros Hd (H1 & H2 & H3 & H4 & H5). split_and!; [done | | done..].
  cbn. intros p1 ref1 [[-> ->] | [_ Hl]]%lookup_insert_Some; eauto.
Qed.

Lemma wf_unregister b ss ds rs qs p :
  wf_parts b ss ds rs qs ->
  wf_parts
    (RingBuffer.set_dispatcher_map
       (delete p (RingBuffer._dispatcher_map b)) b) ss ds rs qs.
Proof.
  intros (H1 & H2 & H3 & H4 & H5). split_and!; [done | | done..].
  cbn. intros p1 ref1 [_ Hl]%lookup_delete_Some. eauto.
Qed.

Lemma wf_set_delegate b ss ds rs qs delegate :
  wf_parts b ss ds rs qs ->
  wf_parts (RingBuffer.set_delegate delegate b) ss ds rs qs.
Proof. intros (H1 & H2 & H3 & H4 & H5). by split_and!. Qed.

Lemma wf_post b ss ds rs qs p ref x k :
  is_Some (ds !! ref) ->
  wf_parts b ss ds rs qs ->
  wf_parts b ss ds rs
    (<[p := default [] (qs !! p) ++ [DispatcherWrite ref x k]]> qs).
Proof.
  intros Hd (H1 & H2 & H3 & H4 & H5). split_and!; [done.. |].
  intros p1 tasks ref1 x1 k1 [[-> <-] | [_ Hl]]%lookup_insert_Some Hin;
    [|eauto].
  apply elem_of_app in Hin as [Hin | Hin%list_elem_of_singleton].
  - destruct (qs !! p1) eqn:E; [eauto | by apply not_elem_of_nil in Hin].
  - by simplify_eq.
Qed.

Lemma wf_pop b ss ds rs qs p task rest :
  qs !! p = Some (task :: rest) ->
  wf_parts b ss ds rs qs -> wf_parts b ss ds rs (<[p := rest]> qs).
Proof.
  intros Hq (H1 & H2 & H3 & H4 & H5). split_and!; [done.. |].
  intros p1 tasks ref1 x1 k1 [[-> <-] | [_ Hl]]%lookup_insert_Some Hin;
    [|eauto].
  eapply H5; [done|]. by apply elem_of_cons; right.
Qed.

Lemma wf_ctor size max_size cb :
  wf_world (RingBuffer_ctor (T:=T) size max_size cb).
Proof.
  unfold wf_world, wf_parts. cbn. split_and!.
  - rewrite lookup_singleton_eq. by eexists.
  - intros ?? H. by rewrite lookup_empty in H.
  - intros ?? H. by rewrite lookup_empty in H.
  - intros ?? H. by rewrite lookup_empty in H.
  - intros ????? H. by rewrite lookup_empty in H.
Qed.

Lemma for_each_returns {A : Type} (I : World T -> Prop) (l : list A) body :
  (forall a, a ∈ l -> returns I (body a)) -> returns I (for_each l body).
Proof.
  induction l as [|a l IH]; intros Hbody w Hw.
  - by exists w, tt.
  - destruct (Hbody a (list_elem_of_here a l) w Hw) as (w1 & [] & E1 & H1).
    destruct (IH (fun a' Ha' => Hbody a' (list_elem_of_further _ _ _ Ha'))
                w1 H1) as (w2 & [] & E2 & H2).
    exists w2, tt. split; [|done].
    cbn [for_each]. unfold_M. by rewrite E1.
Qed.

Lemma onRead_storage (s : _RingStorage.t T) data k r :
  _RingReader._storage (_RingReader.onRead s data k r).1 =
  _RingReader._storage r.
Proof. unfold _RingReader.onRead. by repeat case_match. Qed.

Lemma replay_storage (s : _RingStorage.t T) cache r evs :
  _RingReader._storage
    (fold_left
       (fun acc pr =>
          let '(r1, evs1) := _RingReader.onRead s pr.2 pr.1 acc.1 in
          (r1, acc.2 ++ evs1)) cache (r, evs)).1 =
  _RingReader._storage r.
Proof.
  revert r evs. induction cache as [|pr cache IH]; intros r evs; [done|].
  cbn [fold_left fst snd].
  destruct (_RingReader.onRead s pr.2 pr.1 r) as [r1 evs1] eqn:E.
  rewrite IH. by rewrite <- (onRead_storage s pr.2 pr.1 r), E.
Qed.

Lemma setReadCB_storage (s : _RingStorage.t T) cb r :
  _RingReader._storage (_RingReader.setReadCB cb s r).1 =
  _RingReader._storage r.
Proof.
  unfold _RingReader.setReadCB, _RingReader.flushGop.
  destruct cb as [f|]; [|done].
  case_match; [done|]. unfold _RingReader.replay. by rewrite replay_storage.
Qed.

Lemma reader_onRead_run this data k w r s :
  w_readers w !! this = Some r ->
  w_storages w !! _RingReader._storage r = Some s ->
  _RingReader_onRead this data k w =
  ({| w_buffer := w_buffer w; w_storages := w_storages w;
      w_dispatchers := w_dispatchers w;
      w_readers := <[this := (_RingReader.onRead s data k r).1]> (w_readers w);
      w_queues := w_queues w;
      w_trace := w_trace w ++ (_RingReader.onRead s data k r).2;
      w_next := w_next w;
      w_released := w_released w |}, Ok tt).
Proof.
  intros Hr Hs. unfold _RingReader_onRead. unfold_M.
  rewrite Hr. cbn. by rewrite Hs.
Qed.

Lemma wf_after_size_changed poller size add_flag w :
  wf_world w -> wf_world (after_size_changed poller size add_flag w).
Proof.
  unfold wf_world, after_size_changed. cbn. intros H.
  destruct (size =? 0); [by apply wf_unregister | done].
Qed.

Lemma dispatcher_write_returns order this (in_ : T) is_key :
  returns (wf_with this) (_RingReaderDispatcher_write order this in_ is_key).
Proof.
  intros w [Hwf [d Hd]]. unfold _RingReaderDispatcher_write.
  unfold mbind at 1, M_bind at 1, deref at 1. rewrite Hd.
  unfold mbind at 1, M_bind at 1.
  match goal with
  | |- context [for_each ?l ?body w] =>
      destruct (for_each_returns (wf_with this) l body) with (w := w)
        as (w1 & [] & E1 & Hwf1 & [d2 Hd2]); [| done |]
  end.
  { intros it _ w0 [Hwf0 [d0 Hd0]]. unfold_M. cbn.
    destruct (w_readers w0 !! it.2) as [r|] eqn:Hr.
    - destruct Hwf0 as (H1 & H2 & H3 & H4 & H5).
      destruct (H4 _ _ Hr) as [s Hs].
      rewrite (reader_onRead_run _ in_ is_key _ r s Hr Hs).
      do 2 eexists. split; [done|]. split; [|by eexists].
      unfold wf_world. cbn. apply wf_insert_reader; [|by split_and!].
      rewrite onRead_storage. by eexists.
    - rewrite Hd0. cbn.
      unfold _RingReaderDispatcher_onSizeChanged, call_size_changed.
      unfold_M. cbn. rewrite lookup_insert_eq. cbn.
      destruct (_RingReaderDispatcher._on_size_changed d0) as [captured].
      rewrite onSizeChanged_run. do 2 eexists. split; [done|].
      split.
      + apply wf_after_size_changed. unfold wf_world. cbn.
        apply wf_insert_dispatcher; [|done].
        destruct Hwf0 as (_ & _ & H3 & _). cbn. eauto.
      + cbn. rewrite lookup_insert_eq. by eexists. }
  rewrite E1. unfold_M. rewrite Hd2. cbn.
  destruct Hwf1 as (H1 & H2 & H3 & H4 & H5).
  destruct (H3 _ _ Hd2) as [s Hs]. rewrite Hs.
  do 2 eexists. split; [done|]. split; [|cbn; by eexists].
  unfold wf_world. cbn. apply wf_insert_storage. by split_and!.
Qed.

Lemma poller_step_returns order poller :
  returns (T:=T) wf_world (poller_step order poller).
Proof.
  intros w Hwf. unfold poller_step. unfold_M.
  destruct (w_queues w !! poller) as [[|[ref x k] rest]|] eqn:Hq; cbn;
    [by exists w, tt | | by exists w, tt].
  destruct (dispatcher_write_returns order ref x k
    {| w_buffer := w_buffer w; w_storages := w_storages w;
       w_dispatchers := w_dispatchers w; w_readers := w_readers w;
       w_queues := <[poller := rest]> (w_queues w);
       w_trace := w_trace w; w_next := w_next w;
       w_released := w_released w |})
    as (w1 & [] & E1 & Hwf1 & _).
  { split.
    - unfold wf_world. cbn. by eapply wf_pop.
    - cbn. destruct Hwf as (_ & _ & _ & _ & H5).
      eapply H5; [done|]. apply list_elem_of_here. }
  exists w1, tt. by rewrite E1.
Qed.

Lemma buffer_write_returns (in_ : T) is_key :
  returns wf_world (RingBuffer_write in_ is_key).
Proof.
  intros w Hwf. unfold RingBuffer_write.
  unfold mbind at 1, M_bind at 1, get_buffer.
  destruct (RingBuffer._delegate (w_buffer w)) as [delegate|].
  { do 2 eexists. split; [done|]. done. }
  pose proof Hwf as ([s Hs] & H2 & _). unfold_M. rewrite Hs. cbn.
  match goal with
  | |- context [for_each ?l ?body ?w1] =>
      destruct (for_each_returns
                  (fun w0 => wf_world w0 /\
                             w_dispatchers w0 = w_dispatchers w) l body)
        with (w := w1) as (w2 & [] & E2 & Hwf2 & _)
  end.
  - intros [p ref] Hin%elem_of_map_to_list w0 [Hwf0 Hds]. cbn.
    do 2 eexists. split; [done|]. split; [|done].
    unfold wf_world. cbn. apply wf_post; [|done].
    rewrite Hds. eauto.
  - split; [|done]. unfold wf_world. cbn. by apply wf_insert_storage.
  - exists w2, tt. by rewrite E2.
Qed.

Lemma wf_attach_ready poller w : wf_world w -> attach_ready poller w.
Proof.
  intros (H1 & H2 & _). unfold attach_ready.
  destruct (RingBuffer._dispatcher_map (w_buffer w) !! poller_addr poller)
    eqn:E; eauto.
Qed.

Lemma wf_with_dispatcher poller w w1 ref d :
  wf_world w -> with_dispatcher poller w = Some (w1, ref, d) -> wf_world w1.
Proof.
  intros Hwf. unfold with_dispatcher.
  destruct (RingBuffer._dispatcher_map (w_buffer w) !! poller_addr poller).
  - destruct (w_dispatchers w !! p); intros; by simplify_eq/=.
  - destruct (w_storages w !! _) eqn:E; intros; simplify_eq/=.
    unfold wf_world. cbn.
    apply wf_register; [by rewrite lookup_insert_eq|].
    apply wf_insert_dispatcher; [cbn; by rewrite lookup_insert_eq|].
    by apply wf_insert_storage.
Qed.

Lemma wf_after_dispatcher_attach this d use_cache w :
  wf_world w -> w_dispatchers w !! this = Some d ->
  wf_world (after_dispatcher_attach this d use_cache w).
Proof.
  intros Hwf Hd. unfold after_dispatcher_attach.
  destruct (_RingReaderDispatcher._on_size_changed d) as [captured].
  apply wf_after_size_changed. unfold wf_world. cbn.
  pose proof Hwf as (_ & _ & H3 & _).
  apply wf_insert_reader; [cbn; eauto|].
  apply wf_insert_dispatcher; [cbn; eauto | done].
Qed.

Lemma buffer_attach_safe cur poller use_cache w :
  wf_world w ->
  wf_world (RingBuffer_attach cur poller use_cache w).1 /\
  (RingBuffer_attach cur poller use_cache w).2 <> Fault.
Proof.
  intros Hwf.
  destruct (attach_ready_with_dispatcher poller w
              (wf_attach_ready poller w Hwf)) as (w1 & ref & d & Hw & _).
  rewrite (buffer_attach_run cur poller use_cache w w1 ref d Hw).
  pose proof (wf_with_dispatcher poller w w1 ref d Hwf Hw) as Hwf1.
  pose proof (with_dispatcher_lookup poller w w1 ref d Hw) as Hd.
  destruct (isCurrentThread poller cur) eqn:Hthread.
  - rewrite (dispatcher_attach_own ref cur poller use_cache w1 d Hthread Hd).
    split; [by apply wf_after_dispatcher_attach | done].
  - by rewrite (dispatcher_attach_foreign ref cur poller use_cache w1 Hthread).
Qed.

Lemma run_call_safe call w :
  wf_world w -> call_allowed call w ->
  wf_world (run_call call w).1 /\ (run_call call w).2 <> Fault.
Proof.
  intros Hwf Hok.
  destruct call as [x k | dl | cur p uc | rd cb | rd cb | order p];
    cbn [run_call call_allowed] in *.
  - destruct (buffer_write_returns x k w Hwf) as (w1 & [] & -> & H1). done.
  - unfold RingBuffer_setDelegate. unfold_M. cbn. split; [|done].
    by apply wf_set_delegate.
  - destruct (buffer_attach_safe cur p uc w Hwf) as [H1 H2].
    unfold fmap, M_fmap.
    destruct (RingBuffer_attach cur p uc w) as [w1 [a|e|]]; done.
  - destruct Hok as [r Hr]. pose proof Hwf as (_ & _ & _ & H4 & _).
    destruct (H4 _ _ Hr) as [s Hs].
    rewrite (reader_setReadCB_run rd cb w r s Hr Hs). cbn. split; [|done].
    apply wf_insert_reader; [|done]. rewrite setReadCB_storage. by eexists.
  - destruct Hok as [r Hr]. pose proof Hwf as (_ & _ & _ & H4 & _).
    unfold _RingReader_setDetachCB. unfold_M. rewrite Hr. cbn.
    split; [|done]. apply wf_insert_reader; [|done].
    destruct cb; cbn; eauto.
  - destruct (poller_step_returns order p w Hwf) as (w1 & [] & -> & H1). done.
Qed.

(** Every reachable world is well formed, and no allowed call on it
    dereferences a dangling pointer. *)
Lemma reachable_wf w : reachable w -> wf_world w.
Proof.
  induction 1 as [size max_size cb | call w _ IH Hok].
  - apply wf_ctor.
  - by apply run_call_safe.
Qed.

Lemma reachable_attach_ready poller w :
  reachable w -> attach_ready poller w.
Proof. intros H. by apply wf_attach_ready, reachable_wf. Qed.

Lemma reachable_no_fault call w :
  reachable w -> call_allowed call w -> (run_call call w).2 <> Fault.
Proof. intros Hr Hok. by apply run_call_safe; [apply reachable_wf|]. Qed.

End world_safety.

(** * More about the cache *)

Section cache_contents.
Context {T : Type}.
Implicit Types (s : _RingStorage.t T) (ws c : list (bool * T)) (x : T).

Lemma since_last_key_snoc_key ws x :
  since_last_key (ws ++ [(true, x)]) = [(true, x)].
Proof.
  induction ws as [|e ws IH]; [done|].
  cbn [app since_last_key]. rewrite existsb_app. cbn.
  by rewrite orb_true_r.
Qed.

Lemma since_last_key_snoc ws x :
  since_last_key (ws ++ [(false, x)]) = since_last_key ws ++ [(false, x)].
Proof.
  induction ws as [|e ws IH]; [done|].
  cbn [app since_last_key]. rewrite existsb_app. cbn.
  rewrite orb_false_r. by destruct (existsb fst ws).
Qed.

Lemma last_n_snoc_fits {A : Type} (n : nat) (l : list A) (e : A) :
  (length l < n)%nat -> last_n n l ++ [e] = last_n n (l ++ [e]).
Proof.
  intros H. unfold last_n. rewrite length_app. cbn [length].
  replace (length l - n)%nat with 0%nat by lia.
  by replace (length l + 1 - n)%nat with 0%nat by lia.
Qed.

Lemma last_n_snoc_full {A : Type} (n : nat) (l : list A) (e : A) :
  (n <= length l)%nat -> tail (last_n n l ++ [e]) = last_n n (l ++ [e]).
Proof.
  intros H. unfold last_n. rewrite length_app. cbn [length].
  replace (length l + 1 - n)%nat with (S (length l - n)) by lia.
  rewrite <- (drop_app_le l [e]) by lia.
  generalize (length l - n)%nat, (l ++ [e]). clear.
  intros m l. revert m. induction l as [|a l IH]; intros [|m]; cbn; auto.
Qed.

Lemma length_last_n {A : Type} (n : nat) (l : list A) :
  length (last_n n l) = Nat.min n (length l).
Proof. unfold last_n. rewrite length_drop. lia. Qed.

Lemma exact_inv_write ws s x k :
  exact_inv ws s -> exact_inv (ws ++ [(k, x)]) (_RingStorage.write x k s).
Proof.
  intros [Hc Hcap].
  unfold exact_inv, _RingStorage.write, _RingStorage.getCache,
    _RingStorage.maxSize, _RingStorageInternal.getCache,
    _RingStorageInternal.maxSize in *.
  cbn [_RingStorage.with_internal _RingStorage._storage_internal].
  assert (Hkey : forall cap c0, 1 <= cap <= Int.max_int ->
    _RingStorageInternal._data_cache
      (_RingStorageInternal.write x true (_RingStorageInternal.mk c0 cap)) =
    last_n (Z.to_nat cap) (since_last_key (ws ++ [(true, x)]))).
  { intros cap c0 Hcap1. rewrite since_last_key_snoc_key.
    cbn -[Int.to_size_t]. rewrite to_size_t_id by lia.
    destruct (Z.gtb_spec (Z.of_nat 1) cap); [lia|].
    unfold last_n. cbn [length]. by replace (1 - Z.to_nat cap)%nat with 0%nat by lia. }
  destruct (computeGopSize_internal k s) as [E | (-> & b & Hb1 & E)];
    cbn zeta in E; rewrite E.
  - destruct (_RingStorage._storage_internal s) as [c cap].
    cbn [_RingStorageInternal._data_cache _RingStorageInternal._max_size]
      in Hc, Hcap.
    rewrite internal_write_max_size.
    cbn [_RingStorageInternal._max_size]. split; [|done].
    destruct k.
    + destruct (decide (cap = 0)) as [-> | Hne]; [|apply Hkey; lia].
      rewrite since_last_key_snoc_key. reflexivity.
    + rewrite since_last_key_snoc. subst c.
      cbn -[Int.to_size_t last_n]. rewrite to_size_t_id by done.
      rewrite length_app, length_last_n. cbn [length].
      destruct (Z.gtb_spec
                  (Z.of_nat (Nat.min (Z.to_nat cap)
                               (length (since_last_key ws)) + 1)) cap).
      * apply last_n_snoc_full. lia.
      * apply last_n_snoc_fits. lia.
  - unfold _RingStorageInternal.ctor. rewrite internal_write_max_size.
    cbn [_RingStorageInternal._max_size]. split; [|lia].
    apply Hkey. lia.
Qed.

Lemma exact_inv_ctor size max_size :
  Int.in_range size -> Int.in_range max_size ->
  (size <= 0 -> 0 <= max_size) ->
  exact_inv [] (_RingStorage.ctor (T:=T) size max_size).
Proof.
  unfold Int.in_range, Int.min_int. intros Hs Hm H0.
  unfold exact_inv, _RingStorage.ctor.
  destruct (Z.leb_spec size 0); cbn; split; try done; lia.
Qed.

Lemma exact_inv_writes size max_size ws :
  Int.in_range size -> Int.in_range max_size ->
  (size <= 0 -> 0 <= max_size) ->
  exact_inv ws (_RingStorage.writes ws (_RingStorage.ctor size max_size)).
Proof.
  intros Hs Hm H0. induction ws as [|[k x] ws IH] using rev_ind.
  - by apply exact_inv_ctor.
  - rewrite writes_snoc. by apply exact_inv_write.
Qed.

(** X1: a cache of non-negative capacity holds exactly the last
    [maxSize()] of the writes made since the most recent boundary write
    (all of them when they are fewer): nothing is evicted before the
    capacity is exceeded, and a boundary write drops all earlier
    entries. *)
Theorem X1_cache_exact_contents size max_size ws :
  Int.in_range size -> Int.in_range max_size ->
  (size <= 0 -> 0 <= max_size) ->
  let s := _RingStorage.writes ws (_RingStorage.ctor size max_size) in
  _RingStorage.getCache s =
    last_n (Z.to_nat (_RingStorage.maxSize s)) (since_last_key ws) /\
  Z.of_nat (length (_RingStorage.getCache s)) =
    Z.min (_RingStorage.maxSize s) (Z.of_nat (length (since_last_key ws))).
Proof.
  intros Hs Hm H0. cbn zeta.
  assert (H : exact_inv ws
                (_RingStorage.writes ws (_RingStorage.ctor size max_size))).
  { induction ws as [|[k x] ws IH] using rev_ind.
    - by apply exact_inv_ctor.
    - rewrite writes_snoc. by apply exact_inv_write. }
  destruct H as [Hc Hcap]. split; [done|].
  rewrite Hc, length_last_n. lia.
Qed.

End cache_contents.

Lemma X1_cache_exact_contents_witness :
  let ws := [(true, 1%nat); (false, 2%nat); (true, 3%nat); (false, 4%nat);
             (false, 5%nat); (false, 6%nat)] in
  let s := _RingStorage.writes ws (_RingStorage.ctor 3 0) in
  _RingStorage.getCache s = [(false, 4%nat); (false, 5%nat); (false, 6%nat)] /\
  since_last_key ws =
    [(true, 3%nat); (false, 4%nat); (false, 5%nat); (false, 6%nat)].
Proof.
  destruct (X1_cache_exact_contents 3 0
    [(true, 1%nat); (false, 2%nat); (true, 3%nat); (false, 4%nat);
     (false, 5%nat); (false, 6%nat)]) as [H _];
    [unfold Int.in_range, Int.min_int, Int.max_int; lia ..|].
  cbn zeta. split; [rewrite H|]; reflexivity.
Defined.

(** * More about the adaptive size *)

Section sizing_more.
Context {T : Type}.
Implicit Types (s : _RingStorage.t T) (ws : list (bool * T)) (x : T).

(** X2: a cache built with a positive [size] keeps that capacity under
    every sequence of writes: [_beset_size] stays unset and resizing stays
    off, whatever [max_size] was passed. *)
Theorem X2_fixed_size_never_resizes size max_size ws :
  0 < size ->
  let s := _RingStorage.writes ws (_RingStorage.ctor (T:=T) size max_size) in
  _RingStorage.maxSize s = size /\
  _RingStorage._beset_size s = 0 /\
  _RingStorage._can_resize s = false.
Proof.
  intros Hs. cbn zeta.
  assert (E : _RingStorage.ctor (T:=T) size max_size =
              _RingStorage.mk (_RingStorageInternal.ctor size) 0 0 0 false
                Int.indeterminate).
  { unfold _RingStorage.ctor. destruct (Z.leb_spec size 0); [lia | done]. }
  destruct (writes_settled ws (_RingStorage.ctor (T:=T) size max_size))
    as (H1 & H2 & H3); [left; by rewrite E|].
  cbn zeta in *. rewrite H1, H2, H3, E. done.
Qed.

Lemma unsettled_inv_ctor size H :
  size <= 0 -> unsettled_inv H [] (_RingStorage.ctor (T:=T) size H).
Proof.
  intros Hs. unfold _RingStorage.ctor.
  destruct (Z.leb_spec size 0); [|lia]. by split_and!.
Qed.

Lemma unsettled_inv_write H ws s x k :
  Z.of_nat (length ws) + 1 <= Int.max_int ->
  unsettled_inv H ws s ->
  unsettled_inv H (ws ++ [(k, x)]) (_RingStorage.write x k s).
Proof.
  intros Hlen [Hc Hu].
  destruct (decide (_RingStorage._beset_size s = 0)) as [E | NE].
  - destruct (Hu E) as (Hm & Ht & Hk).
    assert (Hw : Int.wrap (Z.of_nat (length ws) + 1) =
                 Z.of_nat (length ws) + 1).
    { apply wrap_id. unfold Int.in_range, Int.min_int, Int.max_int in *.
      lia. }
    unfold unsettled_inv, _RingStorage.write, _RingStorage.computeGopSize,
      _RingStorage.maxSize in *.
    rewrite Hc, E, Ht. cbn -[Int.wrap]. rewrite Hw.
    rewrite key_writes_snoc, length_app, Hk. cbn [length].
    destruct k; cbn -[Int.wrap].
    + destruct (Z.eqb_spec (_RingStorage._last_key_count s) 0);
        cbn -[Int.wrap].
      * split; [done|]. intros _. split_and!; [done | lia |].
        destruct (Z.eqb_spec (Z.of_nat (length ws) + 1) 0); [lia | done].
      * split; [done|]. unfold RING_MIN_SIZE. intros Hz. exfalso.
        revert Hz. repeat case_match; lia.
    + split; [done|]. intros _. split_and!; [done | lia |].
      destruct (_RingStorage._last_key_count s =? 0); lia.
  - destruct (write_settled x k s (or_intror NE)) as (E1 & E2 & E3).
    cbn zeta in *. split; [by rewrite E2|]. rewrite E1. done.
Qed.

Lemma unsettled_inv_writes size H ws :
  size <= 0 -> Z.of_nat (length ws) <= Int.max_int ->
  unsettled_inv H ws (_RingStorage.writes ws (_RingStorage.ctor size H)).
Proof.
  intros Hs. induction ws as [|[k x] ws IH] using rev_ind; intros Hlen.
  - by apply unsettled_inv_ctor.
  - rewrite length_app in Hlen. cbn [length] in Hlen.
    rewrite writes_snoc. apply unsettled_inv_write; [lia|]. apply IH. lia.
Qed.

(** X3: an auto-sizing cache settles its size exactly at the second
    boundary write: while fewer than two boundary writes were made the
    capacity is the ceiling [H] and [_beset_size] is unset; from the second
    on, [_beset_size] is set.  (The write counter is an [int]: the number
    of writes is assumed to fit.) *)
Theorem X3_auto_size_settles_at_second_key size H ws :
  size <= 0 -> Z.of_nat (length ws) <= Int.max_int ->
  let s := _RingStorage.writes ws (_RingStorage.ctor size H) in
  (_RingStorage._beset_size s <> 0 <-> (2 <= key_writes ws)%nat) /\
  ((key_writes ws < 2)%nat ->
   _RingStorage.maxSize s = H /\ _RingStorage._beset_size s = 0).
Proof.
  intros Hs Hlen. cbn zeta.
  destruct (unsettled_inv_writes size H ws Hs Hlen) as [_ Hu].
  destruct (keys_inv_writes size H ws) as [_ Hk].
  assert (Hiff : _RingStorage._beset_size
                   (_RingStorage.writes ws (_RingStorage.ctor size H)) <> 0 <->
                 (2 <= key_writes ws)%nat).
  { split; [done|]. intros H2 E. destruct (Hu E) as (_ & _ & Hkw).
    revert Hkw. case_match; lia. }
  split; [done|]. intros Hlt.
  destruct (decide (_RingStorage._beset_size
              (_RingStorage.writes ws (_RingStorage.ctor size H)) = 0))
    as [E | NE].
  - split; [apply (Hu E) | done].
  - apply Hiff in NE. lia.
Qed.

End sizing_more.

Lemma X2_fixed_size_never_resizes_witness :
  let s := _RingStorage.writes
             [(true, 1%nat); (false, 2%nat); (true, 3%nat); (true, 4%nat)]
             (_RingStorage.ctor 3 1024) in
  _RingStorage.maxSize s = 3 /\
  _RingStorage._beset_size s = 0 /\
  _RingStorage._can_resize s = false.
Proof.
  apply (X2_fixed_size_never_resizes 3 1024
           [(true, 1%nat); (false, 2%nat); (true, 3%nat); (true, 4%nat)]).
  lia.
Defined.

Lemma X3_auto_size_settles_at_second_key_witness :
  let ws := [(false, 0%nat); (true, 1%nat); (false, 2%nat)] in
  let s := _RingStorage.writes ws (_RingStorage.ctor 0 1024) in
  (_RingStorage._beset_size s <> 0 <-> (2 <= key_writes ws)%nat) /\
  ((key_writes ws < 2)%nat ->
   _RingStorage.maxSize s = 1024 /\ _RingStorage._beset_size s = 0).
Proof.
  apply (X3_auto_size_settles_at_second_key 0 1024
           [(false, 0%nat); (true, 1%nat); (false, 2%nat)]).
  - lia.
  - vm_compute. discriminate.
Defined.

(** * More about the reader: replaying a sequence of frames *)

Section replay_facts.
Context {T : Type}.
Implicit Types (storage : _RingStorage.t T) (r : _RingReader.t).
Implicit Types (l pre post : list (bool * T)).

Lemma replay_fold_acc storage l r evs :
  fold_left
    (fun acc pr =>
       let '(r1, evs1) := _RingReader.onRead storage pr.2 pr.1 acc.1 in
       (r1, acc.2 ++ evs1)) l (r, evs) =
  ((_RingReader.replay storage l r).1,
   evs ++ (_RingReader.replay storage l r).2).
Proof.
  unfold _RingReader.replay. revert r evs.
  induction l as [|e l IH]; intros r evs; cbn [fold_left fst snd].
  - by rewrite app_nil_r.
  - destruct (_RingReader.onRead storage e.2 e.1 r) as [r1 evs1].
    rewrite (IH r1 (evs ++ evs1)), (IH r1 ([] ++ evs1)). cbn [app fst snd].
    by rewrite app_assoc.
Qed.

Lemma replay_cons storage e l r :
  _RingReader.replay storage (e :: l) r =
  let res := _RingReader.onRead storage e.2 e.1 r in
  ((_RingReader.replay storage l res.1).1,
   res.2 ++ (_RingReader.replay storage l res.1).2).
Proof.
  unfold _RingReader.replay at 1. cbn [fold_left fst snd].
  destruct (_RingReader.onRead storage e.2 e.1 r) as [r1 evs1].
  by rewrite replay_fold_acc.
Qed.

Lemma replay_app storage l1 l2 r :
  _RingReader.replay storage (l1 ++ l2) r =
  let res := _RingReader.replay storage l1 r in
  ((_RingReader.replay storage l2 res.1).1,
   res.2 ++ (_RingReader.replay storage l2 res.1).2).
Proof.
  revert r. induction l1 as [|e l1 IH]; intros r.
  - cbn [app]. cbn zeta.
    change (_RingReader.replay storage [] r) with (r, @nil (Event T)).
    cbn [fst snd app]. by destruct (_RingReader.replay storage l2 r).
  - cbn [app]. rewrite !replay_cons. cbn zeta. rewrite IH. cbn zeta.
    cbn [fst snd]. by rewrite app_assoc.
Qed.

Lemma deliveries_user f l :
  deliveries (User f) l = map (fun e => ReadCB f e.2) l.
Proof.
  unfold deliveries. induction l as [|e l IH]; [done|].
  simpl in *. by rewrite IH.
Qed.

Lemma replay_streaming storage l r :
  _RingReader._start_on_read r = true \/ _RingReader._use_cache r = false ->
  _RingReader.replay storage l r = (r, deliveries (_RingReader._read_cb r) l).
Proof.
  intros H. induction l as [|e l IH]; [done|].
  rewrite replay_cons. cbn zeta. rewrite onRead_streaming by done.
  cbn [fst snd]. by rewrite IH.
Qed.

(** A gating reader, written out. *)
Lemma replay_nonkey_gating storage rcb dcb st c l :
  Forall nonkey l -> 0 <= c ->
  c + Z.of_nat (length l) <= Int.max_int ->
  let n0 := frames_until_start (_RingStorage.maxSize storage) c in
  _RingReader.replay storage l (_RingReader.mk rcb dcb st true false c) =
  (_RingReader.mk rcb dcb st true (bool_decide (n0 <= length l)%nat)
     (c + Z.of_nat (Nat.min n0 (length l))),
   deliveries rcb (drop n0 l)).
Proof.
  intros Hnk. revert c. induction Hnk as [|[k x] l Hk _ IH]; intros c Hc Hlen.
  { cbn. unfold frames_until_start. rewrite bool_decide_eq_false_2 by lia.
    rewrite Nat.min_0_r, Z.add_0_r. by rewrite drop_nil. }
  unfold nonkey in Hk. cbn in Hk. subst k. cbn [length] in Hlen.
  rewrite replay_cons. cbn zeta. unfold _RingReader.onRead.
  cbn [_RingReader._start_on_read _RingReader._use_cache negb orb andb
       _RingReader.set_ignored_count _RingReader._ignored_count
       _RingReader._read_cb _RingReader._detach_cb _RingReader._storage
       fst snd].
  rewrite wrap_id
    by (unfold Int.in_range, Int.min_int, Int.max_int in *; lia).
  unfold frames_until_start in *.
  destruct (Z.geb_spec (c + 1) (_RingStorage.maxSize storage)) as [Hge | Hlt].
  - rewrite replay_streaming by (by left).
    unfold _RingReader.set_start_on_read, _RingReader.set_ignored_count.
    cbn [fst snd app _RingReader._read_cb _RingReader._detach_cb
         _RingReader._storage _RingReader._use_cache
         _RingReader._ignored_count].
    replace (Z.to_nat (Z.max 1 (_RingStorage.maxSize storage - c)))
      with 1%nat by lia.
    cbn [drop length]. rewrite bool_decide_eq_true_2 by lia.
    rewrite drop_0. repeat f_equal; lia.
  - unfold _RingReader.set_ignored_count.
    cbn [fst snd _RingReader._read_cb _RingReader._detach_cb
         _RingReader._storage _RingReader._use_cache
         _RingReader._start_on_read].
    rewrite IH by lia. cbn [fst snd app].
    replace (Z.to_nat (Z.max 1 (_RingStorage.maxSize storage - c)))
      with (S (Z.to_nat (Z.max 1 (_RingStorage.maxSize storage - (c + 1)))))
      by lia.
    cbn [drop length]. f_equal. f_equal; [|lia].
    apply bool_decide_ext. lia.
Qed.

(** X4: a reader that has started, or that was attached without
    [use_cache], hands every frame of any sequence to its read callback,
    in order, whatever the flags are, and its state does not change. *)
Theorem X4_started_reader_delivers_all storage l r :
  _RingReader._start_on_read r = true \/ _RingReader._use_cache r = false ->
  _RingReader.replay storage l r = (r, deliveries (_RingReader._read_cb r) l).
Proof. apply replay_streaming. Qed.

(** X5: a gating reader that gets fewer non-key frames than would start it
    by force and then a key frame hands nothing to its callback before the
    key frame, and the key frame and every frame after it, in order; it is
    started from the key frame on. *)
Theorem X5_gated_reader_starts_at_key storage r pre x post :
  _RingReader._use_cache r = true ->
  _RingReader._start_on_read r = false ->
  Forall nonkey pre ->
  0 <= _RingReader._ignored_count r ->
  _RingReader._ignored_count r + Z.of_nat (length pre)
    < Z.min (_RingStorage.maxSize storage) (Int.max_int + 1) ->
  let res := _RingReader.replay storage (pre ++ (true, x) :: post) r in
  res.2 = deliveries (_RingReader._read_cb r) ((true, x) :: post) /\
  _RingReader._start_on_read res.1 = true /\
  _RingReader._ignored_count res.1 =
    _RingReader._ignored_count r + Z.of_nat (length pre).
Proof.
  destruct r as [rcb dcb st uc started c]. cbn. intros -> -> Hnk Hc Hlen.
  rewrite replay_app. cbn zeta.
  rewrite replay_nonkey_gating by (done || lia). cbn [fst snd].
  unfold frames_until_start.
  rewrite bool_decide_eq_false_2 by lia.
  rewrite drop_ge by lia. rewrite replay_cons. cbn zeta.
  rewrite onRead_key by done. cbn [fst snd].
  rewrite replay_streaming by (by left). cbn. split_and!; [done | done | lia].
Qed.

(** X6: a gating reader with ignored count [c] that gets only non-key
    frames swallows the first [max(1, maxSize() - c)] of them and hands the
    rest to its callback, in order: it is started exactly when that many
    frames have come.  (The count is an [int]: it is assumed to fit.) *)
Theorem X6_gated_reader_forced_start storage r l :
  _RingReader._use_cache r = true ->
  _RingReader._start_on_read r = false ->
  Forall nonkey l ->
  0 <= _RingReader._ignored_count r ->
  _RingReader._ignored_count r + Z.of_nat (length l) <= Int.max_int ->
  let n0 := frames_until_start (_RingStorage.maxSize storage)
              (_RingReader._ignored_count r) in
  let res := _RingReader.replay storage l r in
  res.2 = deliveries (_RingReader._read_cb r) (drop n0 l) /\
  (_RingReader._start_on_read res.1 = true <-> (n0 <= length l)%nat).
Proof.
  destruct r as [rcb dcb st uc started c]. cbn. intros -> -> Hnk Hc Hlen.
  rewrite replay_nonkey_gating by done. cbn [fst snd].
  split; [done|]. cbn. apply bool_decide_eq_true.
Qed.

(** X7: installing a read callback on a reader attached with [use_cache],
    when the cache begins with a key frame, hands the callback every cached
    frame, in cache order, and leaves the reader started. *)
Theorem X7_setReadCB_replays_cache storage r f x post :
  _RingReader._use_cache r = true ->
  _RingStorage.getCache storage = (true, x) :: post ->
  let res := _RingReader.setReadCB (Some f) storage r in
  res.2 = ReadCB f x :: map (fun e => ReadCB f e.2) post /\
  _RingReader._start_on_read res.1 = true /\
  _RingReader._read_cb res.1 = User f.
Proof.
  intros Huc Hcache. cbn zeta.
  unfold _RingReader.setReadCB, _RingReader.flushGop.
  cbn [_RingReader.set_read_cb _RingReader._use_cache
       _RingReader.set_start_on_read _RingReader.set_ignored_count].
  rewrite Huc, Hcache. cbn [negb]. rewrite replay_cons. cbn zeta.
  rewrite onRead_key by done. cbn [fst snd].
  rewrite replay_streaming by (by left). cbn.
  by rewrite deliveries_user.
Qed.

(** X8: installing a read callback on a reader attached with [use_cache],
    when the cache holds no key frame and no more entries than its
    capacity, hands the callback nothing: a replay never begins in the
    middle of a group of frames. *)
Theorem X8_setReadCB_silent_without_key storage r f :
  _RingReader._use_cache r = true ->
  Forall nonkey (_RingStorage.getCache storage) ->
  Z.of_nat (length (_RingStorage.getCache storage))
    <= _RingStorage.maxSize storage ->
  Z.of_nat (length (_RingStorage.getCache storage)) <= Int.max_int ->
  let res := _RingReader.setReadCB (Some f) storage r in
  res.2 = [] /\
  _RingReader._ignored_count res.1 =
    Z.of_nat (length (_RingStorage.getCache storage)).
Proof.
  destruct r as [rcb dcb st uc started c].
  cbn [_RingReader._use_cache]. intros -> Hnk Hlen Hmax. cbn zeta.
  unfold _RingReader.setReadCB, _RingReader.flushGop,
    _RingReader.set_read_cb, _RingReader.set_start_on_read,
    _RingReader.set_ignored_count.
  cbn [_RingReader._read_cb _RingReader._detach_cb _RingReader._storage
       _RingReader._use_cache _RingReader._start_on_read
       _RingReader._ignored_count negb].
  rewrite replay_nonkey_gating by (done || lia). cbn [fst snd].
  unfold frames_until_start. split.
  - rewrite drop_ge by lia. done.
  - cbn. lia.
Qed.

End replay_facts.

Lemma X4_started_reader_delivers_all_witness :
  let r := _RingReader.mk (User 7) Noop 1%positive true true 0 in
  _RingReader.replay (_RingStorage.ctor 0 4)
    [(false, 1%nat); (true, 2%nat); (false, 3%nat)] r =
  (r, [ReadCB 7 1%nat; ReadCB 7 2%nat; ReadCB 7 3%nat]).
Proof.
  apply (X4_started_reader_delivers_all (_RingStorage.ctor 0 4)
           [(false, 1%nat); (true, 2%nat); (false, 3%nat)]
           (_RingReader.mk (User 7) Noop 1%positive true true 0)).
  left. reflexivity.
Defined.

Lemma X5_gated_reader_starts_at_key_witness :
  let r := _RingReader.mk (User 7) Noop 1%positive true false 0 in
  let res := _RingReader.replay (_RingStorage.ctor 0 4)
               ([(false, 1%nat); (false, 2%nat)] ++
                (true, 3%nat) :: [(false, 4%nat)]) r in
  res.2 = [ReadCB 7 3%nat; ReadCB 7 4%nat] /\
  _RingReader._start_on_read res.1 = true /\
  _RingReader._ignored_count res.1 = 2.
Proof.
  apply (X5_gated_reader_starts_at_key (_RingStorage.ctor 0 4)
           (_RingReader.mk (User 7) Noop 1%positive true false 0)
           [(false, 1%nat); (false, 2%nat)] 3%nat [(false, 4%nat)]).
  - reflexivity.
  - reflexivity.
  - repeat constructor.
  - vm_compute. discriminate.
  - vm_compute. reflexivity.
Defined.

Lemma X6_gated_reader_forced_start_witness :
  let r := _RingReader.mk (User 7) Noop 1%positive true false 0 in
  let res := _RingReader.replay (_RingStorage.ctor 0 2)
               [(false, 1%nat); (false, 2%nat); (false, 3%nat);
                (false, 4%nat)] r in
  res.2 = [ReadCB 7 3%nat; ReadCB 7 4%nat] /\
  (_RingReader._start_on_read res.1 = true <-> (2 <= 4)%nat).
Proof.
  apply (X6_gated_reader_forced_start (_RingStorage.ctor 0 2)
           (_RingReader.mk (User 7) Noop 1%positive true false 0)
           [(false, 1%nat); (false, 2%nat); (false, 3%nat); (false, 4%nat)]).
  - reflexivity.
  - reflexivity.
  - repeat constructor.
  - vm_compute. discriminate.
  - vm_compute. discriminate.
Defined.

Lemma X7_setReadCB_replays_cache_witness :
  let storage := _RingStorage.writes
                   [(true, 1%nat); (false, 2%nat); (false, 3%nat)]
                   (_RingStorage.ctor 0 4) in
  let res := _RingReader.setReadCB (Some 7%nat) storage
               (_RingReader.ctor 1%positive true) in
  res.2 = ReadCB 7 1%nat ::
          map (fun e => ReadCB 7 e.2) [(false, 2%nat); (false, 3%nat)] /\
  _RingReader._start_on_read res.1 = true /\
  _RingReader._read_cb res.1 = User 7.
Proof.
  apply (X7_setReadCB_replays_cache
           (_RingStorage.writes
              [(true, 1%nat); (false, 2%nat); (false, 3%nat)]
              (_RingStorage.ctor 0 4))
           (_RingReader.ctor 1%positive true) 7%nat 1%nat
           [(false, 2%nat); (false, 3%nat)]).
  - reflexivity.
  - reflexivity.
Defined.

Lemma X8_setReadCB_silent_without_key_witness :
  let storage := _RingStorage.writes
                   [(true, 1%nat); (false, 2%nat); (false, 3%nat);
                    (false, 4%nat)]
                   (_RingStorage.ctor 2 0) in
  let res := _RingReader.setReadCB (Some 7%nat) storage
               (_RingReader.ctor 1%positive true) in
  _RingStorage.getCache storage = [(false, 3%nat); (false, 4%nat)] /\
  res.2 = [] /\
  _RingReader._ignored_count res.1 = 2.
Proof.
  split; [reflexivity|].
  apply (X8_setReadCB_silent_without_key
           (_RingStorage.writes
              [(true, 1%nat); (false, 2%nat); (false, 3%nat);
               (false, 4%nat)]
              (_RingStorage.ctor 2 0))
           (_RingReader.ctor 1%positive true) 7%nat).
  - reflexivity.
  - repeat constructor.
  - vm_compute. discriminate.
  - vm_compute. discriminate.
Defined.

(** * More about [RingBuffer::write] *)

Section buffer_write_facts.
Context {T : Type}.
Implicit Types (w : World T) (l : list (positive * positive)).

Lemma post_all_run l (in_ : T) is_key w :
  NoDup l.*1 ->
  exists qs,
    for_each l (fun pr => async pr.1 (DispatcherWrite pr.2 in_ is_key)) w =
      (with_queues qs w, Ok tt) /\
    forall p,
      qs !! p =
      queue_after_write (list_to_map l) in_ is_key (w_queues w) p.
Proof.
  revert w. induction l as [|[a ref] l IH]; intros w Hnd.
  - exists (w_queues w). split; [by destruct w|]. intros p.
    unfold queue_after_write. by rewrite list_to_map_nil, lookup_empty.
  - rewrite fmap_cons in Hnd. apply NoDup_cons in Hnd as [Hnotin Hnd].
    cbn [for_each]. unfold mbind at 1, M_bind at 1, async at 1.
    cbn [fst snd].
    match goal with
    | |- context [for_each l ?body ?w1] =>
        destruct (IH w1 Hnd) as (qs & E & Hq); rewrite E
    end.
    exists qs. split; [done|]. intros p. rewrite Hq.
    unfold queue_after_write. rewrite list_to_map_cons. cbn [w_queues].
    destruct (decide (p = a)) as [-> | Hne].
    + rewrite lookup_insert_eq.
      rewrite (not_elem_of_list_to_map_1 _ _ Hnotin).
      by rewrite lookup_insert_eq.
    + rewrite !lookup_insert_ne by done. done.
Qed.

Lemma buffer_write_run (in_ : T) is_key w s :
  RingBuffer._delegate (w_buffer w) = None ->
  canonical_cache w = Some s ->
  exists w',
    RingBuffer_write in_ is_key w = (w', Ok tt) /\
    w_buffer w' = w_buffer w /\
    w_storages w' =
      <[RingBuffer._storage (w_buffer w) := _RingStorage.write in_ is_key s]>
        (w_storages w) /\
    w_dispatchers w' = w_dispatchers w /\
    w_readers w' = w_readers w /\
    w_trace w' = w_trace w /\
    forall p,
      w_queues w' !! p =
      queue_after_write (RingBuffer._dispatcher_map (w_buffer w))
        in_ is_key (w_queues w) p.
Proof.
  intros Hd Hs. unfold canonical_cache in Hs.
  unfold RingBuffer_write. unfold mbind at 1, M_bind at 1, get_buffer.
  rewrite Hd. unfold mbind at 1, M_bind at 1, deref. rewrite Hs.
  unfold mbind at 1, M_bind at 1, set_storage.
  match goal with
  | |- context [for_each ?l ?body ?w1] =>
      destruct (post_all_run l in_ is_key w1) as (qs & E & Hq);
        [apply NoDup_fst_map_to_list | rewrite E]
  end.
  eexists. split; [done|]. cbn. split_and!; try done.
  intros p. rewrite Hq. cbn. by rewrite list_to_map_to_list.
Qed.

(** X9: without a delegate, [write] stores the frame in the canonical
    cache and appends one task, carrying the frame, the flag and the
    poller's dispatcher, at the end of the queue of every poller
    registered in [_dispatcher_map]; the queues of other pollers, the
    dispatchers and their caches, the readers and the trace are as they
    were: no callback runs on the writer's thread. *)
Theorem X9_write_posts_to_every_poller (in_ : T) is_key w s :
  RingBuffer._delegate (w_buffer w) = None ->
  canonical_cache w = Some s ->
  exists w',
    RingBuffer_write in_ is_key w = (w', Ok tt) /\
    w_buffer w' = w_buffer w /\
    w_storages w' =
      <[RingBuffer._storage (w_buffer w) := _RingStorage.write in_ is_key s]>
        (w_storages w) /\
    w_dispatchers w' = w_dispatchers w /\
    w_readers w' = w_readers w /\
    w_trace w' = w_trace w /\
    forall p,
      w_queues w' !! p =
      queue_after_write (RingBuffer._dispatcher_map (w_buffer w))
        in_ is_key (w_queues w) p.
Proof. apply buffer_write_run. Qed.

End buffer_write_facts.

Lemma X9_write_posts_to_every_poller_witness :
  let w := (RingBuffer_attach 5 poller3 true one_key_written).1 in
  exists w',
    RingBuffer_write 2%nat false w = (w', Ok tt) /\
    w_queues w' !! 3%positive = Some [DispatcherWrite 3%positive 2%nat false] /\
    w_queues w' !! 4%positive = None /\
    w_trace w' = w_trace w.
Proof.
  destruct (X9_write_posts_to_every_poller 2%nat false
              (RingBuffer_attach 5 poller3 true one_key_written).1
              (_RingStorage.writes [(true, 1%nat)] (_RingStorage.ctor 0 10)))
    as (w' & E & _ & _ & _ & _ & Ht & Hq); [reflexivity | reflexivity |].
  exists w'. split_and!; [exact E | | | exact Ht].
  - rewrite Hq. reflexivity.
  - rewrite Hq. reflexivity.
Defined.

(** * More about [_RingReaderDispatcher::write] *)

Section dispatcher_write_facts.
Context {T : Type}.
Implicit Types (w : World T) (l : list (positive * positive)).

Lemma dispatcher_write_unfold order this (in_ : T) is_key :
  _RingReaderDispatcher_write order this in_ is_key =
  (deref w_dispatchers this ;;
   for_each order (dispatch_entry this in_ is_key) ;;
   d2 ← deref w_dispatchers this;
   s ← deref w_storages (_RingReaderDispatcher._storage d2);
   set_storage (_RingReaderDispatcher._storage d2)
     (_RingStorage.write in_ is_key s)).
Proof. reflexivity. Qed.

Lemma dispatch_entry_live this (in_ : T) is_key it w r s :
  w_readers w !! it.2 = Some r ->
  w_storages w !! _RingReader._storage r = Some s ->
  dispatch_entry this in_ is_key it w =
  (with_readers
     (<[it.2 := (_RingReader.onRead s in_ is_key r).1]> (w_readers w))
     (w_trace w ++ (_RingReader.onRead s in_ is_key r).2) w, Ok tt).
Proof.
  intros Hr Hs. unfold dispatch_entry.
  unfold mbind at 1, M_bind at 1, get_world. rewrite Hr.
  by rewrite (reader_onRead_run _ in_ is_key w r s Hr Hs).
Qed.

Lemma reader_after_insert_ne (in_ : T) is_key w rs tr v v' r' :
  v <> v' ->
  reader_after in_ is_key (with_readers (<[v := r']> rs) tr w) v' =
  reader_after in_ is_key (with_readers rs tr w) v'.
Proof.
  intros Hne. unfold reader_after. cbn. by rewrite lookup_insert_ne.
Qed.

Lemma deliver_run this (in_ : T) is_key l w :
  NoDup l.*2 ->
  (forall it, it ∈ l ->
     exists r, w_readers w !! it.2 = Some r /\
               is_Some (w_storages w !! _RingReader._storage r)) ->
  exists rs,
    for_each l (dispatch_entry this in_ is_key) w =
      (with_readers rs
         (w_trace w ++ flat_map (reader_events in_ is_key w) l.*2) w,
       Ok tt) /\
    (forall v, v ∈ l.*2 -> rs !! v = reader_after in_ is_key w v) /\
    (forall v, v ∉ l.*2 -> rs !! v = w_readers w !! v).
Proof.
  revert w. induction l as [|[a v] l IH]; intros w Hnd Hlive.
  { exists (w_readers w). cbn. rewrite app_nil_r.
    split_and!; [by destruct w | | done].
    intros v Hin. by apply not_elem_of_nil in Hin. }
  rewrite fmap_cons in Hnd. apply NoDup_cons in Hnd as [Hnotin Hnd].
  destruct (Hlive (a, v) (list_elem_of_here _ _)) as (r & Hr & [s Hs]).
  cbn [fst snd] in Hr.
  cbn [for_each]. unfold mbind at 1, M_bind at 1.
  rewrite (dispatch_entry_live this in_ is_key (a, v) w r s Hr Hs).
  cbn [fst snd].
  set (w1 := with_readers _ _ w).
  assert (Hsame : forall v', v' ∈ l.*2 ->
            w_readers w1 !! v' = w_readers w !! v').
  { intros v' Hin. cbn. rewrite lookup_insert_ne; [done|].
    intros ->. done. }
  destruct (IH w1 Hnd) as (rs & E & Hin & Hout).
  { intros it Hit.
    destruct (Hlive it (list_elem_of_further _ _ _ Hit)) as (r1 & Hr1 & Hs1).
    exists r1. split; [|done]. rewrite Hsame; [done|].
    apply list_elem_of_fmap. by exists it. }
  rewrite E. exists rs.
  assert (Hev : flat_map (reader_events in_ is_key w1) l.*2 =
                flat_map (reader_events in_ is_key w) l.*2).
  { rewrite !flat_map_concat_map. f_equal.
    apply map_ext_in. intros v' Hv'%list_elem_of_In.
    unfold reader_events. rewrite Hsame by done. done. }
  split_and!.
  - rewrite Hev. unfold with_readers, w1. cbn.
    unfold reader_events at 2. rewrite Hr, Hs. by rewrite app_assoc.
  - intros v' Hv'. rewrite fmap_cons in Hv'. cbn [snd] in Hv'.
    apply elem_of_cons in Hv' as [-> | Hv'].
    + rewrite (Hout v Hnotin). cbn. rewrite lookup_insert_eq.
      unfold reader_after. rewrite Hr. cbn. by rewrite Hs.
    + rewrite (Hin v' Hv'). unfold reader_after. rewrite Hsame by done.
      done.
  - intros v' Hv'. rewrite fmap_cons in Hv'. cbn [snd] in Hv'.
    apply not_elem_of_cons in Hv' as [Hne Hv'].
    rewrite (Hout v' Hv'). cbn. by rewrite lookup_insert_ne.
Qed.

Lemma iteration_of_elem order (m : gmap positive positive) key v :
  iteration_of order m -> (key, v) ∈ order <-> m !! key = Some v.
Proof.
  unfold iteration_of. intros ->. apply elem_of_map_to_list.
Qed.

Lemma iteration_of_NoDup_fst order (m : gmap positive positive) :
  iteration_of order m -> NoDup order.*1.
Proof.
  unfold iteration_of. intros ->. apply NoDup_fst_map_to_list.
Qed.

Lemma iteration_of_length order (m : gmap positive positive) :
  iteration_of order m -> length order = size m.
Proof.
  unfold iteration_of. intros ->. apply length_map_to_list.
Qed.

(** X10: when every reader registered in the dispatcher is alive, its
    [write] runs [onRead] once on each of them, in the order in which the
    loop meets the entries of the map, on the cache as it is before the
    frame is stored, then stores the frame in the dispatcher's cache; the
    dispatcher (its map and count), the buffer, the task queues and the
    readers it does not own are as they were. *)
Theorem X10_dispatcher_write_delivers order this (in_ : T) is_key w d s :
  w_dispatchers w !! this = Some d ->
  w_storages w !! _RingReaderDispatcher._storage d = Some s ->
  iteration_of order (_RingReaderDispatcher._reader_map d) ->
  NoDup (map_to_list (_RingReaderDispatcher._reader_map d)).*2 ->
  all_live (_RingReaderDispatcher._reader_map d) w ->
  exists w',
    _RingReaderDispatcher_write order this in_ is_key w = (w', Ok tt) /\
    w_storages w' =
      <[_RingReaderDispatcher._storage d := _RingStorage.write in_ is_key s]>
        (w_storages w) /\
    w_dispatchers w' = w_dispatchers w /\
    w_buffer w' = w_buffer w /\
    w_queues w' = w_queues w /\
    (forall key v, _RingReaderDispatcher._reader_map d !! key = Some v ->
       w_readers w' !! v = reader_after in_ is_key w v) /\
    (forall v,
       (forall key, _RingReaderDispatcher._reader_map d !! key <> Some v) ->
       w_readers w' !! v = w_readers w !! v) /\
    w_trace w' =
      w_trace w ++ flat_map (reader_events in_ is_key w) order.*2.
Proof.
  intros Hd Hs Horder Hnd Hlive.
  rewrite dispatcher_write_unfold.
  unfold mbind at 1, M_bind at 1, deref at 1. rewrite Hd.
  unfold mbind at 1, M_bind at 1.
  assert (Hnd' : NoDup order.*2).
  { unfold iteration_of in Horder. by rewrite Horder. }
  destruct (deliver_run this in_ is_key order w Hnd')
    as (rs & E & Hin & Hout).
  { intros [a v] Hit. apply (Hlive a v).
    by apply (iteration_of_elem order _ a v Horder). }
  rewrite E. unfold_M. cbn. rewrite Hd. cbn. rewrite Hs.
  eexists. split; [done|]. cbn. split_and!; try done.
  - intros key v Hk. apply Hin. apply list_elem_of_fmap. exists (key, v).
    split; [done|]. by apply (iteration_of_elem order _ key v Horder).
  - intros v Hv. apply Hout. intros [[key v'] [-> Hit]]%list_elem_of_fmap.
    apply (Hv key). by apply (iteration_of_elem order _ key v' Horder).
Qed.

End dispatcher_write_facts.

Section dispatcher_cleanup_facts.
Context {T : Type}.
Implicit Types (w : World T) (l : list (positive * positive)).

Lemma dispatch_entry_expired this (in_ : T) is_key it w d :
  w_readers w !! it.2 = None ->
  w_dispatchers w !! this = Some d ->
  dispatch_entry this in_ is_key it w =
  (after_cleanup this d it.1 w, Ok tt).
Proof.
  intros Hr Hd. unfold dispatch_entry, after_cleanup.
  unfold mbind at 1, M_bind at 1, get_world. rewrite Hr.
  unfold _RingReaderDispatcher_onSizeChanged, call_size_changed.
  unfold_M. rewrite Hd. cbn. rewrite lookup_insert_eq. cbn.
  destruct (_RingReaderDispatcher._on_size_changed d) as [captured].
  by rewrite onSizeChanged_run.
Qed.

Lemma wf_after_cleanup this d key w :
  wf_world w -> w_dispatchers w !! this = Some d ->
  wf_world (after_cleanup this d key w).
Proof.
  intros Hwf Hd. unfold after_cleanup.
  destruct (_RingReaderDispatcher._on_size_changed d) as [captured].
  apply wf_after_size_changed. unfold wf_world. cbn.
  apply wf_insert_dispatcher; [|done].
  destruct Hwf as (_ & _ & H3 & _). cbn. eauto.
Qed.

Lemma expired_entries_cons_live w it l :
  is_Some (w_readers w !! it.2) ->
  expired_entries w (it :: l) = expired_entries w l.
Proof.
  intros [r Hr]. unfold expired_entries.
  rewrite filter_cons_False; [done|]. by rewrite Hr.
Qed.

Lemma expired_entries_cons_expired w it l :
  w_readers w !! it.2 = None ->
  expired_entries w (it :: l) = it :: expired_entries w l.
Proof. intros Hr. unfold expired_entries. by rewrite filter_cons_True. Qed.

Lemma expired_entries_ext w w1 l :
  (forall v, w_readers w1 !! v = None <-> w_readers w !! v = None) ->
  expired_entries w1 l = expired_entries w l.
Proof.
  intros H. unfold expired_entries. apply list_filter_iff. intros it. apply H.
Qed.

(** The loop of [write] over the entries [l], on a dispatcher whose count
    stays within [int]. *)
Lemma cleanup_run this (in_ : T) is_key l w d :
  NoDup l.*1 ->
  wf_world w ->
  w_dispatchers w !! this = Some d ->
  Int.min_int + Z.of_nat (length l) <= _RingReaderDispatcher._reader_size d
    <= Int.max_int ->
  exists w' d',
    for_each l (dispatch_entry this in_ is_key) w = (w', Ok tt) /\
    wf_world w' /\
    w_dispatchers w' !! this = Some d' /\
    _RingReaderDispatcher._storage d' = _RingReaderDispatcher._storage d /\
    _RingReaderDispatcher._on_size_changed d' =
      _RingReaderDispatcher._on_size_changed d /\
    _RingReaderDispatcher._reader_size d' =
      _RingReaderDispatcher._reader_size d
      - Z.of_nat (length (expired_entries w l)) /\
    (forall key v, (key, v) ∈ l -> w_readers w !! v = None ->
       _RingReaderDispatcher._reader_map d' !! key = None) /\
    (forall key, (forall v, (key, v) ∈ l -> is_Some (w_readers w !! v)) ->
       _RingReaderDispatcher._reader_map d' !! key =
       _RingReaderDispatcher._reader_map d !! key) /\
    (forall v, w_readers w' !! v = None <-> w_readers w !! v = None) /\
    w_storages w' = w_storages w /\
    (forall p, p <> this -> w_dispatchers w' !! p = w_dispatchers w !! p) /\
    w_queues w' = w_queues w /\
    w_released w' = w_released w /\
    (Z.of_nat (length l) <= _RingReaderDispatcher._reader_size d ->
     w_buffer w' =
       if bool_decide (_RingReaderDispatcher._reader_size d' = 0 /\
                       expired_entries w l <> [])
       then unregistered (_RingReaderDispatcher._on_size_changed d)
              (w_buffer w)
       else w_buffer w).
Proof.
  revert w d. induction l as [|[a v] l IH]; intros w d Hnd Hwf Hd Hrange.
  { exists w, d. cbn. split_and!; try done.
    - lia.
    - intros key v Hin. by apply not_elem_of_nil in Hin.
    - intros _. rewrite bool_decide_eq_false_2; [done|]. by intros [_ ?]. }
  rewrite fmap_cons in Hnd. apply NoDup_cons in Hnd as [Hnotin Hnd].
  cbn [fst] in Hnotin. cbn [length] in Hrange.
  cbn [for_each]. unfold mbind at 1, M_bind at 1.
  destruct (w_readers w !! v) as [r|] eqn:Hr.
  - (* the reader is alive: onRead *)
    pose proof Hwf as (_ & _ & _ & H4 & _).
    destruct (H4 _ _ Hr) as [s Hs].
    rewrite (dispatch_entry_live this in_ is_key (a, v) w r s Hr Hs).
    cbn [fst snd]. set (w1 := with_readers _ _ w).
    assert (Hexp : forall v', w_readers w1 !! v' = None <->
                              w_readers w !! v' = None).
    { intros v'. cbn. destruct (decide (v' = v)) as [-> | Hne].
      - rewrite lookup_insert_eq, Hr. done.
      - by rewrite lookup_insert_ne. }
    destruct (IH w1 d Hnd) as (w' & d' & E & Hwf' & Hd' & Hst & Hcb & Hsz
                               & Hgone & Hkept & Hexp' & Hss & Hds & Hqs & Hrl & Hb).
    { unfold wf_world, w1. cbn. apply wf_insert_reader; [|done].
      rewrite onRead_storage. by eexists. }
    { done. }
    { lia. }
    exists w', d'. rewrite E.
    rewrite (expired_entries_ext w w1 l Hexp) in Hsz, Hb.
    rewrite expired_entries_cons_live by (cbn; by rewrite Hr).
    split_and!; try done.
    + intros key v' [[= -> ->] | Hin]%elem_of_cons Hnone;
        [by rewrite Hr in Hnone|].
      apply (Hgone key v' Hin). by apply Hexp.
    + intros key Hall. apply Hkept. intros v' Hin.
      destruct (Hall v' (list_elem_of_further _ _ _ Hin)) as [r' Hr'].
      destruct (w_readers w1 !! v') eqn:E1; [by eexists|].
      apply Hexp in E1. by rewrite E1 in Hr'.
    + intros v'. rewrite Hexp'. apply Hexp.
    + intros Hle. cbn [length] in Hle. apply Hb. lia.
  - (* the reader has expired: the entry is erased *)
    rewrite (dispatch_entry_expired this in_ is_key (a, v) w d Hr Hd).
    cbn [fst snd].
    assert (Hw : Int.wrap (_RingReaderDispatcher._reader_size d - 1) =
                 _RingReaderDispatcher._reader_size d - 1).
    { apply wrap_id. unfold Int.in_range, Int.min_int, Int.max_int in *.
      lia. }
    set (w1 := after_cleanup this d a w).
    set (d1 := _RingReaderDispatcher.set_readers
                 (_RingReaderDispatcher._reader_size d - 1)
                 (delete a (_RingReaderDispatcher._reader_map d)) d).
    assert (Hd1 : w_dispatchers w1 !! this = Some d1).
    { unfold w1, after_cleanup. rewrite Hw.
      destruct (_RingReaderDispatcher._on_size_changed d). cbn.
      apply lookup_insert_eq. }
    assert (Hr1 : w_readers w1 = w_readers w).
    { unfold w1, after_cleanup.
      by destruct (_RingReaderDispatcher._on_size_changed d). }
    assert (Hs1 : w_storages w1 = w_storages w).
    { unfold w1, after_cleanup.
      by destruct (_RingReaderDispatcher._on_size_changed d). }
    assert (Hq1 : w_queues w1 = w_queues w).
    { unfold w1, after_cleanup.
      by destruct (_RingReaderDispatcher._on_size_changed d). }
    assert (Hrl1 : w_released w1 = w_released w).
    { unfold w1, after_cleanup.
      by destruct (_RingReaderDispatcher._on_size_changed d). }
    assert (Hds1 : forall p, p <> this ->
              w_dispatchers w1 !! p = w_dispatchers w !! p).
    { intros p Hp. unfold w1, after_cleanup.
      destruct (_RingReaderDispatcher._on_size_changed d). cbn.
      by rewrite lookup_insert_ne. }
    assert (Hb1 : w_buffer w1 =
              if _RingReaderDispatcher._reader_size d - 1 =? 0
              then unregistered (_RingReaderDispatcher._on_size_changed d)
                     (w_buffer w)
              else w_buffer w).
    { unfold w1, after_cleanup, unregistered. rewrite Hw.
      by destruct (_RingReaderDispatcher._on_size_changed d). }
    destruct (IH w1 d1 Hnd) as (w' & d' & E & Hwf' & Hd' & Hst & Hcb & Hsz
                                & Hgone & Hkept & Hexp' & Hss & Hds & Hqs & Hrl & Hb).
    { by apply wf_after_cleanup. }
    { done. }
    { cbn. lia. }
    exists w', d'. rewrite E.
    assert (Hexp : expired_entries w1 l = expired_entries w l).
    { apply expired_entries_ext. intros v'. by rewrite Hr1. }
    rewrite Hexp in Hsz, Hb.
    rewrite expired_entries_cons_expired by done.
    split_and!; try done.
    + cbn [length]. rewrite Hsz. cbn. lia.
    + intros key v' [[= -> ->] | Hin]%elem_of_cons Hnone.
      * rewrite Hkept; [cbn; apply lookup_delete_eq|].
        intros v' Hin. exfalso. apply Hnotin.
        apply list_elem_of_fmap. by exists (a, v').
      * apply (Hgone key v' Hin). by rewrite Hr1.
    + intros key Hall.
      assert (key <> a) as Hne.
      { intros ->. destruct (Hall v (list_elem_of_here _ _)) as [? Hx].
        by rewrite Hr in Hx. }
      rewrite Hkept; [cbn; by apply lookup_delete_ne|].
      intros v' Hin. rewrite Hr1. apply Hall. by apply list_elem_of_further.
    + intros v'. by rewrite Hexp', Hr1.
    + by rewrite Hss.
    + intros p Hp. by rewrite Hds, Hds1.
    + by rewrite Hqs.
    + by rewrite Hrl.
    + intros Hle. cbn [length] in Hle.
      rewrite Hb by (cbn; lia). rewrite Hb1.
      destruct (Z.eqb_spec (_RingReaderDispatcher._reader_size d - 1) 0)
        as [Hz | Hnz].
      * assert (l = []) as -> by (destruct l; [done | cbn in Hle; lia]).
        cbn in Hsz. rewrite bool_decide_eq_false_2 by (by intros [_ ?]).
        rewrite bool_decide_eq_true_2; [done|]. split; [cbn in *; lia | done].
      * destruct (decide (expired_entries w l = [])) as [El | El].
        -- rewrite El in *. cbn in Hsz.
           rewrite !bool_decide_eq_false_2; [done | | by intros [_ ?]].
           intros [Hz _]. cbn in *. lia.
        -- change (_RingReaderDispatcher._on_size_changed d1)
             with (_RingReaderDispatcher._on_size_changed d).
           rewrite (bool_decide_ext
                      (_RingReaderDispatcher._reader_size d' = 0 /\
                       expired_entries w l <> [])
                      (_RingReaderDispatcher._reader_size d' = 0 /\
                       (a, v) :: expired_entries w l <> [])); [done|].
           split; intros [Hz _]; by split.
Qed.

Lemma expired_entries_all w l :
  (forall it, it ∈ l -> w_readers w !! it.2 = None) ->
  expired_entries w l = l.
Proof.
  intros H. unfold expired_entries. induction l as [|it l IH]; [done|].
  rewrite filter_cons_True by (apply H, list_elem_of_here).
  rewrite IH; [done|]. intros it' Hin. by apply H, list_elem_of_further.
Qed.

Lemma expired_entries_iteration w order (m : gmap positive positive) :
  iteration_of order m ->
  expired_entries w order ≡ₚ expired_entries w (map_to_list m).
Proof. unfold iteration_of, expired_entries. by intros ->. Qed.

(** The whole of [write], from the loop. *)
Lemma dispatcher_write_cleanup order this (in_ : T) is_key w d :
  wf_world w ->
  w_dispatchers w !! this = Some d ->
  iteration_of order (_RingReaderDispatcher._reader_map d) ->
  Int.min_int + Z.of_nat (size (_RingReaderDispatcher._reader_map d))
    <= _RingReaderDispatcher._reader_size d <= Int.max_int ->
  let entries := map_to_list (_RingReaderDispatcher._reader_map d) in
  exists w' d' s,
    _RingReaderDispatcher_write order this in_ is_key w = (w', Ok tt) /\
    w_dispatchers w' !! this = Some d' /\
    w_storages w !! _RingReaderDispatcher._storage d = Some s /\
    w_storages w' =
      <[_RingReaderDispatcher._storage d := _RingStorage.write in_ is_key s]>
        (w_storages w) /\
    _RingReaderDispatcher._reader_size d' =
      _RingReaderDispatcher._reader_size d
      - Z.of_nat (length (expired_entries w entries)) /\
    (forall key v, _RingReaderDispatcher._reader_map d !! key = Some v ->
       _RingReaderDispatcher._reader_map d' !! key =
       if decide (w_readers w !! v = None) then None else Some v) /\
    (forall key, _RingReaderDispatcher._reader_map d !! key = None ->
       _RingReaderDispatcher._reader_map d' !! key = None) /\
    (forall v, w_readers w' !! v = None <-> w_readers w !! v = None) /\
    (Z.of_nat (size (_RingReaderDispatcher._reader_map d))
       <= _RingReaderDispatcher._reader_size d ->
     w_buffer w' =
       if bool_decide (_RingReaderDispatcher._reader_size d' = 0 /\
                       expired_entries w entries <> [])
       then unregistered (_RingReaderDispatcher._on_size_changed d)
              (w_buffer w)
       else w_buffer w) /\
    w_queues w' = w_queues w /\
    w_released w' = w_released w /\
    wf_world w'.
Proof.
  intros Hwf Hd Horder Hrange. cbn zeta.
  pose proof (expired_entries_iteration w order _ Horder) as Hperm.
  rewrite <- (iteration_of_length order _ Horder) in Hrange.
  rewrite dispatcher_write_unfold.
  unfold mbind at 1, M_bind at 1, deref at 1. rewrite Hd.
  unfold mbind at 1, M_bind at 1.
  destruct (cleanup_run this in_ is_key order w d)
    as (w1 & d' & E & Hwf1 & Hd' & Hst & Hcb & Hsz & Hgone & Hkept & Hexp
        & Hss & Hds & Hqs & Hrl & Hb);
    [by eapply iteration_of_NoDup_fst | done | done | done |].
  rewrite E. unfold_M. rewrite Hd'. cbn.
  pose proof Hwf1 as (_ & _ & H3 & _).
  destruct (H3 _ _ Hd') as [s Hs]. rewrite Hs.
  exists
    {| w_buffer := w_buffer w1;
       w_storages :=
         <[_RingReaderDispatcher._storage d' :=
             _RingStorage.write in_ is_key s]> (w_storages w1);
       w_dispatchers := w_dispatchers w1; w_readers := w_readers w1;
       w_released := w_released w1;
       w_queues := w_queues w1; w_trace := w_trace w1;
       w_next := w_next w1 |}, d', s.
  cbn. rewrite Hst in *. rewrite Hss in *.
  split_and!; try done.
  - rewrite Hsz. by rewrite (Permutation_length Hperm).
  - intros key v Hm. destruct (decide (w_readers w !! v = None)) as [Hv | Hv].
    + apply (Hgone key v); [|done].
      by apply (iteration_of_elem order _ key v Horder).
    + rewrite Hkept; [done|].
      intros v' Hin%(iteration_of_elem order _ key v' Horder).
      assert (v' = v) as -> by congruence.
      by destruct (w_readers w !! v); [eexists|].
  - intros key Hm. rewrite Hkept; [done|].
    intros v' Hin%(iteration_of_elem order _ key v' Horder). congruence.
  - intros Hle. rewrite <- (iteration_of_length order _ Horder) in Hle.
    rewrite (Hb Hle).
    rewrite (bool_decide_ext
               (_RingReaderDispatcher._reader_size d' = 0 /\
                expired_entries w order <> [])
               (_RingReaderDispatcher._reader_size d' = 0 /\
                expired_entries w
                  (map_to_list (_RingReaderDispatcher._reader_map d)) <> []));
      [done|].
    split; intros [Hz Hne]; (split; [done|]); intros Hnil; apply Hne.
    + rewrite Hnil in Hperm. by apply Permutation_nil_r in Hperm.
    + rewrite Hnil in Hperm. by apply Permutation_nil_l in Hperm.
  - unfold wf_world in *. cbn. rewrite <- Hss. by apply wf_insert_storage.
Qed.

(** X11: [write] cleans up lazily: the entries of [_reader_map] whose
    reader has expired are erased and [_reader_size] is decremented once
    for each of them; the entries of live readers stay, no other entry
    appears, no reader is created or destroyed, and the frame is stored in
    the dispatcher's cache all the same; this in whatever order the loop
    meets the entries. *)
Theorem X11_dispatcher_write_cleans_up order this (in_ : T) is_key w d :
  wf_world w ->
  w_dispatchers w !! this = Some d ->
  iteration_of order (_RingReaderDispatcher._reader_map d) ->
  Int.min_int + Z.of_nat (size (_RingReaderDispatcher._reader_map d))
    <= _RingReaderDispatcher._reader_size d <= Int.max_int ->
  exists w' d' s,
    _RingReaderDispatcher_write order this in_ is_key w = (w', Ok tt) /\
    w_dispatchers w' !! this = Some d' /\
    w_storages w !! _RingReaderDispatcher._storage d = Some s /\
    w_storages w' =
      <[_RingReaderDispatcher._storage d := _RingStorage.write in_ is_key s]>
        (w_storages w) /\
    _RingReaderDispatcher._reader_size d' =
      _RingReaderDispatcher._reader_size d
      - Z.of_nat
          (length (expired_entries w
                     (map_to_list (_RingReaderDispatcher._reader_map d)))) /\
    (forall key v, _RingReaderDispatcher._reader_map d !! key = Some v ->
       _RingReaderDispatcher._reader_map d' !! key =
       if decide (w_readers w !! v = None) then None else Some v) /\
    (forall key, _RingReaderDispatcher._reader_map d !! key = None ->
       _RingReaderDispatcher._reader_map d' !! key = None) /\
    (forall v, w_readers w' !! v = None <-> w_readers w !! v = None).
Proof.
  intros Hwf Hd Horder Hrange.
  destruct (dispatcher_write_cleanup order this in_ is_key w d Hwf Hd Horder
              Hrange)
    as (w' & d' & s & H1 & H2 & H3 & H4 & H5 & H6 & H7 & H8 & _).
  exists w', d', s. by split_and!.
Qed.

(** X12: on a dispatcher whose count equals the number of its entries,
    [write] takes the dispatcher out of the buffer's [_dispatcher_map]
    exactly when it finds every registered reader expired (and there was
    one): then the count is 0 and the map of readers empty; when some
    reader is alive the buffer is left as it was. *)
Theorem X12_dispatcher_unregistered_when_empty order this (in_ : T) is_key
    w d :
  wf_world w ->
  w_dispatchers w !! this = Some d ->
  iteration_of order (_RingReaderDispatcher._reader_map d) ->
  _RingReaderDispatcher._reader_size d =
    Z.of_nat (size (_RingReaderDispatcher._reader_map d)) ->
  _RingReaderDispatcher._reader_size d <= Int.max_int ->
  exists w' d',
    _RingReaderDispatcher_write order this in_ is_key w = (w', Ok tt) /\
    w_dispatchers w' !! this = Some d' /\
    ((forall key v, _RingReaderDispatcher._reader_map d !! key = Some v ->
        w_readers w !! v = None) ->
     _RingReaderDispatcher._reader_map d <> ∅ ->
     w_buffer w' =
       unregistered (_RingReaderDispatcher._on_size_changed d) (w_buffer w) /\
     _RingReaderDispatcher._reader_size d' = 0 /\
     _RingReaderDispatcher._reader_map d' = ∅) /\
    ((exists key v, _RingReaderDispatcher._reader_map d !! key = Some v /\
                    is_Some (w_readers w !! v)) ->
     w_buffer w' = w_buffer w /\
     0 < _RingReaderDispatcher._reader_size d').
Proof.
  intros Hwf Hd Horder Hsize Hmax.
  destruct (dispatcher_write_cleanup order this in_ is_key w d Hwf Hd Horder)
    as (w' & d' & s & H1 & H2 & H3 & H4 & H5 & H6 & H7 & H8 & H9 & _).
  { unfold Int.min_int, Int.max_int in *. lia. }
  exists w', d'. split_and!; [done | done | |].
  - intros Hall Hne.
    assert (Hexp : expired_entries w
                     (map_to_list (_RingReaderDispatcher._reader_map d)) =
                   map_to_list (_RingReaderDispatcher._reader_map d)).
    { apply expired_entries_all. intros [key v] Hin%elem_of_map_to_list.
      by apply (Hall key v). }
    rewrite Hexp in *. rewrite length_map_to_list in H5.
    assert (Hz : _RingReaderDispatcher._reader_size d' = 0) by lia.
    rewrite H9 by lia.
    rewrite bool_decide_eq_true_2
      by (split; [done | by rewrite map_to_list_empty_iff]).
    split_and!; [done | done |].
    apply map_empty. intros key.
    destruct (_RingReaderDispatcher._reader_map d !! key) as [v|] eqn:Hk.
    + rewrite (H6 key v Hk). rewrite decide_True; [done|]. by apply (Hall key v).
    + by apply H7.
  - intros (key & v & Hk & Hlive).
    assert (Hlt : (length (expired_entries w
                     (map_to_list (_RingReaderDispatcher._reader_map d)))
                   < length (map_to_list
                               (_RingReaderDispatcher._reader_map d)))%nat).
    { unfold expired_entries. apply (length_filter_lt _ _ (key, v)).
      - by apply elem_of_map_to_list.
      - cbn. intros Hn. destruct Hlive as [? Hl]. by rewrite Hl in Hn. }
    rewrite length_map_to_list in Hlt.
    rewrite H9 by lia.
    rewrite bool_decide_eq_false_2 by (intros [? _]; lia).
    split; [done | lia].
Qed.

End dispatcher_cleanup_facts.

(** * The release of a reader and of a dispatcher *)

Section release_facts.
Context {T : Type}.
Implicit Types (w : World T).

Lemma reader_dealloc_absent dispatcher ptr w r :
  (forall d, w_dispatchers w !! dispatcher = Some d ->
     _RingReaderDispatcher._reader_map d !! ptr = None) ->
  w_released w !! ptr = Some r ->
  reader_dealloc dispatcher ptr w = (after_delete ptr w, Ok tt).
Proof.
  intros Hd Hr. unfold reader_dealloc, delete_reader, after_delete. unfold_M.
  destruct (w_dispatchers w !! dispatcher) as [d|] eqn:E.
  - rewrite (Hd d eq_refl). cbn. by rewrite Hr.
  - cbn. by rewrite Hr.
Qed.

(** X13: the count of a reader is given back once.  When [write] has
    found the released reader at [ptr] expired and erased its entry, the
    task its deleter posted, when it runs afterwards, only deletes the
    reader: no second decrement, no second notification. *)
Theorem X13_dealloc_after_cleanup_is_noop order this ptr (in_ : T) is_key
    w d r :
  wf_world w ->
  w_dispatchers w !! this = Some d ->
  iteration_of order (_RingReaderDispatcher._reader_map d) ->
  Int.min_int + Z.of_nat (size (_RingReaderDispatcher._reader_map d))
    <= _RingReaderDispatcher._reader_size d <= Int.max_int ->
  w_released w !! ptr = Some r ->
  (forall v, _RingReaderDispatcher._reader_map d !! ptr = Some v ->
     w_readers w !! v = None) ->
  exists w',
    _RingReaderDispatcher_write order this in_ is_key w = (w', Ok tt) /\
    reader_dealloc this ptr w' = (after_delete ptr w', Ok tt).
Proof.
  intros Hwf Hd Horder Hrange Hptr Hentry.
  destruct (dispatcher_write_cleanup order this in_ is_key w d Hwf Hd Horder
              Hrange)
    as (w' & d' & s & H1 & H2 & H3 & H4 & H5 & H6 & H7 & H8 & _ & _ & Hrl
        & _).
  exists w'. split; [done|]. apply (reader_dealloc_absent _ _ _ r).
  - intros d0 Hd0. assert (d0 = d') as -> by congruence.
    destruct (_RingReaderDispatcher._reader_map d !! ptr) as [v|] eqn:Hk.
    + rewrite (H6 ptr v Hk). by rewrite decide_True by (by apply Hentry).
    + by apply H7.
  - by rewrite Hrl.
Qed.

Lemma reader_dealloc_deleted dispatcher ptr w :
  (forall d, w_dispatchers w !! dispatcher = Some d ->
     _RingReaderDispatcher._reader_map d !! ptr = None) ->
  w_released w !! ptr = None ->
  reader_dealloc dispatcher ptr w = (w, Fault).
Proof.
  intros Hd Hr. unfold reader_dealloc, delete_reader. unfold_M.
  destruct (w_dispatchers w !! dispatcher) as [d|] eqn:E.
  - rewrite (Hd d eq_refl). cbn. by rewrite Hr.
  - cbn. by rewrite Hr.
Qed.

Lemma reader_dealloc_registered dispatcher ptr w d v r :
  w_dispatchers w !! dispatcher = Some d ->
  _RingReaderDispatcher._reader_map d !! ptr = Some v ->
  w_released w !! ptr = Some r ->
  reader_dealloc dispatcher ptr w =
  (after_delete ptr (after_cleanup dispatcher d ptr w), Ok tt).
Proof.
  intros Hd Hk Hr. unfold reader_dealloc.
  unfold mbind at 1, M_bind at 1.
  unfold mbind at 1, M_bind at 1, get_world. rewrite Hd, Hk.
  unfold _RingReaderDispatcher_onSizeChanged, call_size_changed.
  unfold_M. cbn. rewrite lookup_insert_eq. cbn.
  unfold after_cleanup, delete_reader.
  destruct (_RingReaderDispatcher._on_size_changed d) as [captured].
  rewrite onSizeChanged_run. cbn. by rewrite Hr.
Qed.

(** X14: the task posted by a reader's deleter, run while the reader's
    entry is still in the dispatcher's map, erases the entry, decrements
    the count, calls the observer with the new count and [false] (which
    takes the dispatcher out of the buffer's map when the count is 0), and
    deletes the reader.  The task is to run once: a second run would
    delete the reader again, which is undefined behaviour. *)
Theorem X14_dealloc_erases_once this ptr w d v r :
  w_dispatchers w !! this = Some d ->
  _RingReaderDispatcher._reader_map d !! ptr = Some v ->
  Int.min_int < _RingReaderDispatcher._reader_size d <= Int.max_int ->
  w_released w !! ptr = Some r ->
  let size := _RingReaderDispatcher._reader_size d - 1 in
  exists w1 d1,
    reader_dealloc this ptr w = (w1, Ok tt) /\
    w_dispatchers w1 !! this = Some d1 /\
    _RingReaderDispatcher._reader_size d1 = size /\
    _RingReaderDispatcher._reader_map d1 =
      delete ptr (_RingReaderDispatcher._reader_map d) /\
    w_readers w1 = w_readers w /\
    w_released w1 = delete ptr (w_released w) /\
    w_buffer w1 =
      (if size =? 0
       then unregistered (_RingReaderDispatcher._on_size_changed d)
              (w_buffer w)
       else w_buffer w) /\
    w_trace w1 =
      w_trace w ++
      match RingBuffer._on_reader_changed (w_buffer w),
            _RingReaderDispatcher._on_size_changed d with
      | Some cb, BufferSizeChanged captured =>
          [ReaderChangedCB cb (poller_addr captured) size false]
      | None, _ => []
      end /\
    reader_dealloc this ptr w1 = (w1, Fault).
Proof.
  intros Hd Hk Hrange Hr. cbn zeta.
  assert (Hw : Int.wrap (_RingReaderDispatcher._reader_size d - 1) =
               _RingReaderDispatcher._reader_size d - 1).
  { apply wrap_id. unfold Int.in_range, Int.min_int, Int.max_int in *. lia. }
  rewrite (reader_dealloc_registered this ptr w d v r Hd Hk Hr).
  do 2 eexists. split; [done|].
  unfold after_delete, after_cleanup. rewrite Hw.
  destruct (_RingReaderDispatcher._on_size_changed d) as [captured] eqn:Hcb.
  cbn. split_and!; [apply lookup_insert_eq | done | done | done | done | | |].
  - by destruct (_RingReaderDispatcher._reader_size d - 1 =? 0).
  - by destruct (RingBuffer._on_reader_changed (w_buffer w)).
  - apply reader_dealloc_deleted; cbn.
    + intros d0. rewrite lookup_insert_eq. intros [= <-]. cbn.
      apply lookup_delete_eq.
    + apply lookup_delete_eq.
Qed.

Lemma detach_entry_run pr w :
  detach_entry pr w =
  (with_readers (w_readers w) (w_trace w ++ detach_events w pr.2) w, Ok tt).
Proof.
  unfold detach_entry, detach_events, with_readers. unfold_M.
  destruct (w_readers w !! pr.2); cbn; [done|].
  rewrite app_nil_r. by destruct w.
Qed.

Lemma detach_loop_run (l : list (positive * positive)) w :
  for_each l detach_entry w =
  (with_readers (w_readers w)
     (w_trace w ++ flat_map (detach_events w) l.*2) w, Ok tt).
Proof.
  revert w. induction l as [|pr l IH]; intros w.
  { cbn. rewrite app_nil_r. by destruct w. }
  cbn [for_each]. unfold mbind at 1, M_bind at 1.
  rewrite detach_entry_run, IH. rewrite fmap_cons. cbn [flat_map].
  unfold with_readers. cbn. by rewrite app_assoc.
Qed.

(** X15: the destructor of a dispatcher runs the detach callback of every
    registered reader that is still alive, once per entry and in the
    order in which its loop meets the entries, and of no other reader;
    afterwards the dispatcher is gone, and the readers, the caches, the
    buffer and the queues are as they were. *)
Theorem X15_dtor_detaches_live_readers order this w d :
  w_dispatchers w !! this = Some d ->
  iteration_of order (_RingReaderDispatcher._reader_map d) ->
  exists w',
    _RingReaderDispatcher_dtor order this w = (w', Ok tt) /\
    w_trace w' = w_trace w ++ flat_map (detach_events w) order.*2 /\
    (forall ev,
       ev ∈ flat_map (detach_events w) order.*2 <->
       exists key v,
         _RingReaderDispatcher._reader_map d !! key = Some v /\
         ev ∈ detach_events w v) /\
    w_dispatchers w' = delete this (w_dispatchers w) /\
    w_readers w' = w_readers w /\
    w_storages w' = w_storages w /\
    w_buffer w' = w_buffer w /\
    w_queues w' = w_queues w.
Proof.
  intros Hd Horder. unfold _RingReaderDispatcher_dtor.
  unfold mbind at 1, M_bind at 1, deref. rewrite Hd.
  unfold mbind at 1, M_bind at 1, set_dispatcher.
  unfold mbind at 1, M_bind at 1.
  change (fun pr : positive * positive =>
            w0 ← get_world;
            match w_readers w0 !! pr.2 with
            | Some reader => emit (_RingReader.onDetach reader)
            | None => mret tt
            end) with (detach_entry (T:=T)).
  rewrite detach_loop_run.
  unfold free_dispatcher, with_readers. cbn.
  eexists. split; [done|]. cbn. split_and!; try done.
  - intros ev. rewrite list_elem_of_In, in_flat_map. split.
    + intros (v & Hv%list_elem_of_In & Hev%list_elem_of_In).
      apply list_elem_of_fmap in Hv as [[key v'] [-> Hit]].
      exists key, v'. split; [|done].
      by apply (iteration_of_elem order _ key v' Horder).
    + intros (key & v & Hk & Hev). exists v. split.
      * apply list_elem_of_In, list_elem_of_fmap. exists (key, v).
        split; [done|]. by apply (iteration_of_elem order _ key v Horder).
      * by apply list_elem_of_In.
  - apply delete_insert_eq.
Qed.

End release_facts.

(** ** At concrete worlds *)

Lemma wf_expire_reader {T : Type} reader (w : World T) :
  wf_world w -> wf_world (expire_reader reader w).1.
Proof.
  intros (H1 & H2 & H3 & H4 & H5). unfold wf_world, expire_reader.
  destruct (w_readers w !! reader); cbn; [|by split_and!].
  split_and!; [done.. | | done].
  intros rp r [_ Hl]%lookup_delete_Some. eauto.
Qed.

Lemma reachable_listening : reachable listening.
Proof.
  apply (reachable_call (CallSetDetachCB 4 (Some 8%nat))); [|by eexists].
  apply (reachable_call (CallSetReadCB 4 (Some 7%nat))); [|by eexists].
  replace attached
    with (run_call (CallAttach 5 poller3 true) one_key_written).1
    by (vm_compute; reflexivity).
  apply (reachable_call (CallAttach 5 poller3 true)); [|done].
  apply (reachable_call (CallWrite 1%nat true)); [|done].
  apply reachable_ctor.
Qed.

Lemma reachable_two_listening : reachable two_listening.
Proof.
  apply (reachable_call (CallSetDetachCB 5 (Some 10%nat))); [|by eexists].
  apply (reachable_call (CallSetReadCB 5 (Some 9%nat))); [|by eexists].
  replace (RingBuffer_attach 5 poller3 false listening).1
    with (run_call (CallAttach 5 poller3 false) listening).1
    by (vm_compute; reflexivity).
  apply (reachable_call (CallAttach 5 poller3 false)); [|done].
  apply reachable_listening.
Qed.

Lemma wf_listening : wf_world listening.
Proof. apply reachable_wf, reachable_listening. Qed.

Lemma wf_abandoned : wf_world abandoned.
Proof. apply wf_expire_reader, wf_listening. Qed.

(** The one entry of the dispatcher of [listening], and the two entries
    of the dispatcher of [two_listening] in the order of the addresses. *)
Lemma iteration_one :
  iteration_of [(4%positive, 4%positive)]
    (_RingReaderDispatcher._reader_map dispatcher3).
Proof. unfold iteration_of. vm_compute. reflexivity. Qed.

Lemma iteration_two :
  iteration_of [(4%positive, 4%positive); (5%positive, 5%positive)]
    (_RingReaderDispatcher._reader_map dispatcher3_two).
Proof. unfold iteration_of. vm_compute. apply perm_swap. Qed.

Lemma X10_dispatcher_write_delivers_witness :
  exists w',
    _RingReaderDispatcher_write
      [(4%positive, 4%positive); (5%positive, 5%positive)] 3 2%nat false
      two_listening = (w', Ok tt) /\
    w_trace w' = w_trace two_listening ++ [ReadCB 7 2%nat; ReadCB 9 2%nat] /\
    (_RingStorage.getCache <$> w_storages w' !! 2%positive) =
      Some [(true, 1%nat); (false, 2%nat)].
Proof.
  destruct (X10_dispatcher_write_delivers
              [(4%positive, 4%positive); (5%positive, 5%positive)]
              3 2%nat false two_listening dispatcher3_two
              (_RingStorage.writes [(true, 1%nat)] (_RingStorage.ctor 0 10)))
    as (w' & E & Hs & _ & _ & _ & _ & _ & Ht).
  - reflexivity.
  - reflexivity.
  - apply iteration_two.
  - vm_compute. apply NoDup_cons. split; [|apply NoDup_singleton].
    intros H%list_elem_of_singleton. discriminate.
  - intros key v H. unfold dispatcher3_two in H.
    cbn [_RingReaderDispatcher._reader_map] in H.
    apply lookup_insert_Some in H as [[<- <-] | [_ H]];
      [|apply lookup_singleton_Some in H as [<- <-]];
      (eexists; split; [reflexivity | by eexists]).
  - exists w'. split_and!; [exact E | | ].
    + rewrite Ht. reflexivity.
    + rewrite Hs. reflexivity.
Defined.

Lemma X11_dispatcher_write_cleans_up_witness :
  exists w' d',
    _RingReaderDispatcher_write [(4%positive, 4%positive)] 3 2%nat false
      abandoned = (w', Ok tt) /\
    w_dispatchers w' !! 3%positive = Some d' /\
    _RingReaderDispatcher._reader_size d' = 0 /\
    _RingReaderDispatcher._reader_map d' !! 4%positive = None.
Proof.
  destruct (X11_dispatcher_write_cleans_up [(4%positive, 4%positive)] 3
              2%nat false abandoned dispatcher3)
    as (w' & d' & s & E & Hd & _ & _ & Hsz & Hmap & _).
  - apply wf_abandoned.
  - reflexivity.
  - apply iteration_one.
  - vm_compute. split; discriminate.
  - exists w', d'. split_and!; [exact E | exact Hd | |].
    + rewrite Hsz. cbn. rewrite map_to_list_singleton. reflexivity.
    + rewrite (Hmap 4%positive 4%positive); reflexivity.
Defined.

Lemma X12_dispatcher_unregistered_when_empty_witness :
  exists w',
    _RingReaderDispatcher_write [(4%positive, 4%positive)] 3 2%nat false
      abandoned = (w', Ok tt) /\
    RingBuffer._dispatcher_map (w_buffer w') = ∅.
Proof.
  destruct (X12_dispatcher_unregistered_when_empty [(4%positive, 4%positive)]
              3 2%nat false abandoned dispatcher3)
    as (w' & d' & E & _ & Hall & _).
  - apply wf_abandoned.
  - reflexivity.
  - apply iteration_one.
  - reflexivity.
  - vm_compute. discriminate.
  - exists w'. split; [exact E|].
    destruct Hall as (Hb & _).
    + intros key v H. unfold dispatcher3 in H.
      cbn [_RingReaderDispatcher._reader_map] in H.
      apply lookup_singleton_Some in H as [<- <-]. reflexivity.
    + cbn. apply insert_non_empty.
    + rewrite Hb. reflexivity.
Defined.

Lemma X13_dealloc_after_cleanup_is_noop_witness :
  exists w',
    _RingReaderDispatcher_write [(4%positive, 4%positive)] 3 2%nat false
      abandoned = (w', Ok tt) /\
    reader_dealloc 3 4 w' = (after_delete 4 w', Ok tt).
Proof.
  eapply (X13_dealloc_after_cleanup_is_noop [(4%positive, 4%positive)] 3 4
            2%nat false abandoned dispatcher3).
  - apply wf_abandoned.
  - reflexivity.
  - apply iteration_one.
  - vm_compute. split; discriminate.
  - reflexivity.
  - intros v H. unfold dispatcher3 in H.
    cbn [_RingReaderDispatcher._reader_map] in H.
    apply lookup_singleton_Some in H as [_ <-]. reflexivity.
Defined.

Lemma X14_dealloc_erases_once_witness :
  exists w1 d1,
    reader_dealloc 3 4 abandoned = (w1, Ok tt) /\
    w_dispatchers w1 !! 3%positive = Some d1 /\
    _RingReaderDispatcher._reader_size d1 = 0 /\
    RingBuffer._dispatcher_map (w_buffer w1) = ∅ /\
    w_released w1 = ∅ /\
    reader_dealloc 3 4 w1 = (w1, Fault).
Proof.
  edestruct (X14_dealloc_erases_once 3 4 abandoned dispatcher3 4%positive)
    as (w1 & d1 & E & Hd & Hsz & _ & _ & Hrl & Hb & _ & Hagain).
  - reflexivity.
  - reflexivity.
  - vm_compute. split; [reflexivity | discriminate].
  - reflexivity.
  - exists w1, d1.
    split_and!; [exact E | exact Hd | exact Hsz | | | exact Hagain].
    + rewrite Hb. reflexivity.
    + rewrite Hrl. reflexivity.
Defined.

Lemma X15_dtor_detaches_live_readers_witness :
  exists w',
    _RingReaderDispatcher_dtor
      [(4%positive, 4%positive); (5%positive, 5%positive)] 3 two_listening
      = (w', Ok tt) /\
    w_trace w' = w_trace two_listening ++ [DetachCB 8; DetachCB 10] /\
    w_dispatchers w' !! 3%positive = None.
Proof.
  destruct (X15_dtor_detaches_live_readers
              [(4%positive, 4%positive); (5%positive, 5%positive)] 3
              two_listening dispatcher3_two)
    as (w' & E & Ht & _ & Hd & _); [reflexivity | apply iteration_two |].
  exists w'. split_and!; [exact E | |].
  - rewrite Ht. reflexivity.
  - rewrite Hd. apply lookup_delete_eq.
Defined.

(** * More about attach *)

Section attach_more.
Context {T : Type}.
Implicit Types (w : World T) (poller : EventPoller).

(** X16: [attach] on the poller's thread, for a poller that already has a
    live dispatcher, shares it: no dispatcher and no storage is created,
    the new reader points to the dispatcher's storage and is registered
    under its own address, the count goes up by one, and the observer is
    called once with the new count and [true]. *)
Theorem X16_attach_shares_dispatcher cur poller use_cache w ref d :
  RingBuffer._dispatcher_map (w_buffer w) !! poller_addr poller = Some ref ->
  w_dispatchers w !! ref = Some d ->
  isCurrentThread poller cur = true ->
  let reader := w_next w in
  let size := Int.wrap (_RingReaderDispatcher._reader_size d + 1) in
  exists w',
    RingBuffer_attach cur poller use_cache w = (w', Ok reader) /\
    w_storages w' = w_storages w /\
    w_queues w' = w_queues w /\
    w_dispatchers w' =
      <[ref :=
          _RingReaderDispatcher.set_readers size
            (<[reader := reader]> (_RingReaderDispatcher._reader_map d)) d]>
        (w_dispatchers w) /\
    w_readers w' =
      <[reader :=
          _RingReader.ctor (_RingReaderDispatcher._storage d) use_cache]>
        (w_readers w) /\
    (size <> 0 -> w_buffer w' = w_buffer w) /\
    w_trace w' =
      w_trace w ++
      match RingBuffer._on_reader_changed (w_buffer w),
            _RingReaderDispatcher._on_size_changed d with
      | Some cb, BufferSizeChanged captured =>
          [ReaderChangedCB cb (poller_addr captured) size true]
      | None, _ => []
      end.
Proof.
  intros Hm Hd Hthread. cbn zeta.
  assert (Hw : with_dispatcher poller w = Some (w, ref, d)).
  { unfold with_dispatcher. rewrite Hm, Hd. done. }
  rewrite (buffer_attach_run cur poller use_cache w w ref d Hw).
  rewrite (dispatcher_attach_own ref cur poller use_cache w d Hthread Hd).
  eexists. split; [done|]. unfold after_dispatcher_attach.
  destruct (_RingReaderDispatcher._on_size_changed d) as [captured].
  cbn. split_and!; try done.
  intros Hnz. apply Z.eqb_neq in Hnz. by rewrite Hnz.
Qed.

(** X17: the first [attach] for a poller, on the poller's thread, creates
    the poller's dispatcher on a clone of the canonical storage, registers
    it in the buffer's map, and attaches the reader to it: three fresh
    addresses are used, the count is 1, the observer is called with
    [(1, true)] for that poller, and no task is posted. *)
Theorem X17_first_attach_creates_dispatcher cur poller use_cache w s :
  RingBuffer._dispatcher_map (w_buffer w) !! poller_addr poller = None ->
  canonical_cache w = Some s ->
  isCurrentThread poller cur = true ->
  let storage := w_next w in
  let ref := Pos.succ (w_next w) in
  let reader := Pos.succ (Pos.succ (w_next w)) in
  exists w',
    RingBuffer_attach cur poller use_cache w = (w', Ok reader) /\
    w_storages w' = <[storage := _RingStorage.clone s]> (w_storages w) /\
    w_dispatchers w' =
      <[ref :=
          _RingReaderDispatcher.mk (BufferSizeChanged poller) 1 storage
            {[ reader := reader ]}]> (w_dispatchers w) /\
    w_readers w' =
      <[reader := _RingReader.ctor storage use_cache]> (w_readers w) /\
    RingBuffer._dispatcher_map (w_buffer w') =
      <[poller_addr poller := ref]>
        (RingBuffer._dispatcher_map (w_buffer w)) /\
    w_queues w' = w_queues w /\
    w_trace w' =
      w_trace w ++
      match RingBuffer._on_reader_changed (w_buffer w) with
      | Some cb => [ReaderChangedCB cb (poller_addr poller) 1 true]
      | None => []
      end.
Proof.
  intros Hm Hs Hthread. cbn zeta. unfold canonical_cache in Hs.
  pose (d := _RingReaderDispatcher.ctor (w_next w) (BufferSizeChanged poller)).
  destruct (with_dispatcher poller w) as [[[w1 ref1] d1]|] eqn:Hw;
    unfold with_dispatcher in Hw; rewrite Hm, Hs in Hw; [|done].
  cbn in Hw. injection Hw as <- <- <-.
  match goal with
  | |- context [RingBuffer_attach cur poller use_cache w] =>
      erewrite (buffer_attach_run cur poller use_cache w _ _ d)
  end.
  2:{ unfold with_dispatcher. rewrite Hm, Hs. reflexivity. }
  erewrite (dispatcher_attach_own _ cur poller use_cache _ d Hthread)
    by (cbn; apply lookup_insert_eq).
  eexists. split; [done|]. unfold after_dispatcher_attach. cbn.
  split_and!; try done.
  by rewrite insert_insert_eq.
Qed.

End attach_more.

Lemma X16_attach_shares_dispatcher_witness :
  exists w',
    RingBuffer_attach 5 poller3 false listening = (w', Ok 5%positive) /\
    w_storages w' = w_storages listening /\
    (_RingReaderDispatcher._reader_size <$> w_dispatchers w' !! 3%positive)
      = Some 2 /\
    (_RingReader._storage <$> w_readers w' !! 5%positive) = Some 2%positive.
Proof.
  destruct (X16_attach_shares_dispatcher 5 poller3 false listening 3
              dispatcher3)
    as (w' & E & Hs & _ & Hd & Hr & _); [reflexivity ..|].
  exists w'. split_and!; [exact E | exact Hs | |].
  - rewrite Hd, lookup_insert_eq. reflexivity.
  - rewrite Hr, lookup_insert_eq. reflexivity.
Defined.

Lemma X17_first_attach_creates_dispatcher_witness :
  exists w',
    RingBuffer_attach 5 poller3 true one_key_written = (w', Ok 4%positive) /\
    RingBuffer._dispatcher_map (w_buffer w') !! 3%positive = Some 3%positive /\
    (_RingStorage.getCache <$> w_storages w' !! 2%positive)
      = Some [(true, 1%nat)] /\
    w_queues w' = ∅.
Proof.
  destruct (X17_first_attach_creates_dispatcher 5 poller3 true
              one_key_written
              (_RingStorage.writes [(true, 1%nat)] (_RingStorage.ctor 0 10)))
    as (w' & E & Hs & _ & _ & Hm & Hq & _); [reflexivity ..|].
  exists w'. split_and!; [exact E | | | exact Hq].
  - rewrite Hm. apply lookup_insert_eq.
  - rewrite Hs, lookup_insert_eq. reflexivity.
Defined.

(** * Delegates, replicas and counts *)

Section buffer_more.
Context {T : Type}.
Implicit Types (w : World T).

Lemma write_all_delegated delegate (fs : list (bool * T)) w :
  RingBuffer._delegate (w_buffer w) = Some delegate ->
  write_all fs w =
  (with_readers (w_readers w)
     (w_trace w ++ map (fun e => DelegateOnWrite delegate e.2 e.1) fs) w,
   Ok tt).
Proof.
  revert w. induction fs as [|e fs IH]; intros w Hd.
  { cbn. rewrite app_nil_r. by destruct w. }
  unfold write_all in *. cbn [for_each].
  unfold mbind at 1, M_bind at 1.
  unfold RingBuffer_write at 1. unfold mbind at 1, M_bind at 1, get_buffer.
  rewrite Hd. unfold emit at 1. rewrite IH by done.
  unfold with_readers. cbn. by rewrite <- app_assoc.
Qed.

(** X19: while a delegate is installed every written frame goes to the
    delegate's [onWrite], in the order written, and nowhere else; once the
    delegate is removed the buffer, its cache, the dispatchers and the
    queues are exactly as they were before it was installed: the frames
    written in between are lost to the cache and to the readers. *)
Theorem X19_delegate_round_trip delegate (fs : list (bool * T)) w :
  RingBuffer._delegate (w_buffer w) = None ->
  (RingBuffer_setDelegate (Some delegate) ;; write_all fs ;;
   RingBuffer_setDelegate None) w =
  (with_readers (w_readers w)
     (w_trace w ++ map (fun e => DelegateOnWrite delegate e.2 e.1) fs) w,
   Ok tt).
Proof.
  intros Hd. unfold mbind at 1, M_bind at 1.
  unfold RingBuffer_setDelegate at 1.
  unfold mbind at 1, M_bind at 1, get_buffer, set_buffer.
  unfold mbind at 1, M_bind at 1.
  rewrite write_all_delegated with (delegate := delegate) by done.
  unfold RingBuffer_setDelegate, with_readers. unfold_M. cbn.
  destruct w as [[st dl cb m] ss ds rs rl qs tr nx]. cbn in *. by subst dl.
Qed.

(** X20: a dispatcher's cache follows the canonical one.  When the
    dispatcher of a poller with an empty queue holds a cache equal to the
    canonical cache, after a [write] and the poller's next step the two
    caches are equal again (both have taken the frame), and the queue is
    empty again; this in whatever order the dispatcher's loop meets its
    readers. *)
Theorem X20_replica_catches_up order (in_ : T) is_key w p ref d s :
  wf_world w ->
  RingBuffer._delegate (w_buffer w) = None ->
  RingBuffer._dispatcher_map (w_buffer w) !! p = Some ref ->
  default [] (w_queues w !! p) = [] ->
  w_dispatchers w !! ref = Some d ->
  iteration_of order (_RingReaderDispatcher._reader_map d) ->
  Z.of_nat (size (_RingReaderDispatcher._reader_map d))
    <= _RingReaderDispatcher._reader_size d <= Int.max_int ->
  _RingReaderDispatcher._storage d <> RingBuffer._storage (w_buffer w) ->
  canonical_cache w = Some s ->
  w_storages w !! _RingReaderDispatcher._storage d = Some s ->
  exists w',
    (RingBuffer_write in_ is_key ;; poller_step order p) w = (w', Ok tt) /\
    canonical_cache w' = Some (_RingStorage.write in_ is_key s) /\
    w_storages w' !! _RingReaderDispatcher._storage d =
      Some (_RingStorage.write in_ is_key s) /\
    default [] (w_queues w' !! p) = [].
Proof.
  intros Hwf Hdl Hm Hq Hd Horder Hrange Hne Hs Hsd.
  destruct (buffer_write_run in_ is_key w s Hdl Hs)
    as (w1 & E1 & Hb1 & Hs1 & Hd1 & Hr1 & Ht1 & Hq1).
  destruct (buffer_write_returns in_ is_key w Hwf) as (w1' & [] & E1' & Hwf1).
  assert (w1' = w1) as -> by congruence.
  unfold mbind at 1, M_bind at 1. rewrite E1.
  assert (Hqp : w_queues w1 !! p = Some [DispatcherWrite ref in_ is_key]).
  { rewrite Hq1. unfold queue_after_write. by rewrite Hm, Hq. }
  unfold poller_step. unfold mbind at 1, M_bind at 1, get_world.
  rewrite Hqp. unfold mbind at 1, M_bind at 1.
  unfold default, from_option, id. cbn beta iota. cbn [run_task].
  match goal with
  | |- context [_RingReaderDispatcher_write order ref in_ is_key ?w2] =>
      destruct (dispatcher_write_cleanup order ref in_ is_key w2 d)
        as (w' & d' & s2 & E2 & Hd' & Hs2 & Hss & _ & _ & _ & _ & Hb & Hqs
            & _)
  end.
  { unfold wf_world. cbn. by eapply wf_pop. }
  { cbn. by rewrite Hd1. }
  { done. }
  { unfold Int.min_int, Int.max_int in *. lia. }
  cbn in Hs2, Hss, Hb, Hqs. rewrite E2.
  rewrite Hs1 in Hs2, Hss. rewrite lookup_insert_ne in Hs2 by done.
  assert (s2 = s) as -> by congruence.
  exists w'. split; [done|].
  assert (Hst : RingBuffer._storage (w_buffer w') =
                RingBuffer._storage (w_buffer w)).
  { rewrite Hb by lia. rewrite Hb1.
    destruct (_RingReaderDispatcher._on_size_changed d).
    by destruct (bool_decide _). }
  split_and!.
  - unfold canonical_cache. rewrite Hst, Hss.
    rewrite lookup_insert_ne by done. by rewrite lookup_insert_eq.
  - rewrite Hss. by rewrite lookup_insert_eq.
  - rewrite Hqs. by rewrite lookup_insert_eq.
Qed.

Lemma wrap_add_wrap a b : Int.wrap (Int.wrap a + b) = Int.wrap (a + b).
Proof.
  unfold Int.wrap. f_equal.
  rewrite (Z.mod_eq (a + 2 ^ 31) (2 ^ 32)) by lia.
  replace (a + 2 ^ 31 - 2 ^ 32 * ((a + 2 ^ 31) / 2 ^ 32) - 2 ^ 31 + b
           + 2 ^ 31)
    with (a + b + 2 ^ 31 + (- ((a + 2 ^ 31) / 2 ^ 32)) * 2 ^ 32) by lia.
  by rewrite Z.mod_add by lia.
Qed.

Lemma readerCount_run (l : list (positive * positive)) w :
  (forall pr, pr ∈ l -> is_Some (w_dispatchers w !! pr.2)) ->
  foldr
    (fun pr acc =>
       total ← acc;
       n ← _RingReaderDispatcher_readerCount pr.2;
       mret (Int.wrap (total + n)))
    (mret 0) l w =
  (w, Ok (Int.wrap (count_sum w l))).
Proof.
  induction l as [|pr l IH]; intros Hlive; [done|].
  cbn [foldr count_sum]. unfold mbind at 1, M_bind at 1.
  rewrite IH by (intros pr' Hin; by apply Hlive, list_elem_of_further).
  destruct (Hlive pr (list_elem_of_here _ _)) as [d Hd].
  unfold _RingReaderDispatcher_readerCount, fmap at 1, M_fmap.
  unfold_M. rewrite Hd. cbn. by rewrite wrap_add_wrap.
Qed.

(** X21: [readerCount] only reads: on a world without dangling pointers
    it returns, leaves the world as it is, and its result is the sum of
    the counts of the dispatchers registered in the buffer's map, wrapped
    once to an [int] (0 when there is no dispatcher). *)
Theorem X21_readerCount_reads_the_sum w :
  wf_world w ->
  RingBuffer_readerCount w =
  (w, Ok (Int.wrap
            (count_sum w
               (map_to_list (RingBuffer._dispatcher_map (w_buffer w)))))).
Proof.
  intros (_ & H2 & _). unfold RingBuffer_readerCount.
  unfold mbind at 1, M_bind at 1, get_buffer.
  apply readerCount_run. intros [p ref] Hin%elem_of_map_to_list. eauto.
Qed.

End buffer_more.

Lemma X19_delegate_round_trip_witness :
  (RingBuffer_setDelegate (Some 9%nat) ;;
   write_all [(true, 2%nat); (false, 3%nat)] ;;
   RingBuffer_setDelegate None) listening =
  (with_readers (w_readers listening)
     (w_trace listening ++
      map (fun e => DelegateOnWrite 9 e.2 e.1) [(true, 2%nat); (false, 3%nat)])
     listening, Ok tt).
Proof.
  apply (X19_delegate_round_trip 9 [(true, 2%nat); (false, 3%nat)] listening).
  reflexivity.
Defined.

Lemma X20_replica_catches_up_witness :
  exists w',
    (RingBuffer_write 2%nat false ;;
     poller_step [(4%positive, 4%positive)] 3) listening = (w', Ok tt) /\
    (_RingStorage.getCache <$> canonical_cache w')
      = Some [(true, 1%nat); (false, 2%nat)] /\
    (_RingStorage.getCache <$> w_storages w' !! 2%positive)
      = Some [(true, 1%nat); (false, 2%nat)].
Proof.
  destruct (X20_replica_catches_up [(4%positive, 4%positive)] 2%nat false
              listening 3 3 dispatcher3
              (_RingStorage.writes [(true, 1%nat)] (_RingStorage.ctor 0 10)))
    as (w' & E & Hc & Hs & _).
  - apply wf_listening.
  - reflexivity.
  - reflexivity.
  - reflexivity.
  - reflexivity.
  - apply iteration_one.
  - vm_compute. split; discriminate.
  - vm_compute. discriminate.
  - reflexivity.
  - reflexivity.
  - exists w'. split_and!; [exact E | |].
    + rewrite Hc. reflexivity.
    + change (w_storages w' !! 2%positive)
        with (w_storages w' !! _RingReaderDispatcher._storage dispatcher3).
      rewrite Hs. reflexivity.
Defined.

Lemma X21_readerCount_reads_the_sum_witness :
  (RingBuffer_readerCount listening).2 = Ok 1.
Proof.
  rewrite (X21_readerCount_reads_the_sum listening wf_listening).
  reflexivity.
Defined.

(** * What a late subscriber gets *)

Section late_subscriber.
Context {T : Type}.
Implicit Types (ws l : list (bool * T)).

Lemma since_last_key_no_key ws :
  existsb fst ws = false -> since_last_key ws = ws /\ Forall nonkey ws.
Proof.
  induction ws as [|[k x] ws IH]; [done|].
  cbn [existsb fst since_last_key]. intros [-> Hws]%orb_false_iff.
  rewrite Hws. split; [done|]. constructor; [done|]. by apply IH.
Qed.

Lemma since_last_key_shape ws :
  existsb fst ws = true ->
  exists x post, since_last_key ws = (true, x) :: post /\ Forall nonkey post.
Proof.
  induction ws as [|[k x] ws IH]; [done|].
  cbn [existsb fst since_last_key]. intros Hk.
  destruct (existsb fst ws) eqn:Hws; [by apply IH|].
  rewrite orb_false_r in Hk. subst k. exists x, ws. split; [done|].
  by apply since_last_key_no_key.
Qed.

(** X22: what installing a read callback replays to a reader attached
    with [use_cache], on a cache (of non-negative capacity) that has taken
    the writes [ws]: when [ws] has a boundary write and the writes since
    the most recent one fit in the capacity, exactly those writes, from the
    boundary frame on, in order; otherwise (no boundary write yet, or the
    boundary frame already evicted) nothing. *)
Theorem X22_late_subscriber_replay size max_size ws r f :
  Int.in_range size -> Int.in_range max_size ->
  (size <= 0 -> 0 <= max_size) ->
  _RingReader._use_cache r = true ->
  let s := _RingStorage.writes ws (_RingStorage.ctor size max_size) in
  (_RingReader.setReadCB (Some f) s r).2 =
  if existsb fst ws
     && (Z.of_nat (length (since_last_key ws)) <=? _RingStorage.maxSize s)
  then map (fun e => ReadCB f e.2) (since_last_key ws)
  else [].
Proof.
  intros Hs Hm H0 Huc. cbn zeta.
  destruct (exact_inv_writes size max_size ws Hs Hm H0) as [Hc Hcap].
  set (s := _RingStorage.writes ws (_RingStorage.ctor size max_size)) in *.
  destruct r as [rcb dcb st uc started c]. cbn in Huc. subst uc.
  unfold _RingReader.setReadCB, _RingReader.flushGop,
    _RingReader.set_read_cb, _RingReader.set_start_on_read,
    _RingReader.set_ignored_count.
  cbn [_RingReader._read_cb _RingReader._detach_cb _RingReader._storage
       _RingReader._use_cache _RingReader._start_on_read
       _RingReader._ignored_count negb].
  rewrite Hc. unfold last_n.
  assert (Hsilent : forall l,
            Forall nonkey l ->
            Z.of_nat (length l) <= _RingStorage.maxSize s ->
            (_RingReader.replay s l
               (_RingReader.mk (User f) dcb st true false 0)).2 = []).
  { intros l Hnk Hlen. rewrite replay_nonkey_gating by (done || lia).
    cbn [snd]. unfold frames_until_start. by rewrite drop_ge by lia. }
  destruct (existsb fst ws) eqn:Hk; cbn [andb].
  - destruct (since_last_key_shape ws Hk) as (x & post & El & Hnk).
    rewrite El in *.
    destruct (Z.leb_spec (Z.of_nat (length ((true, x) :: post)))
                (_RingStorage.maxSize s)) as [Hfit | Hover].
    + replace (length ((true, x) :: post)
               - Z.to_nat (_RingStorage.maxSize s))%nat with 0%nat by lia.
      rewrite drop_0, replay_cons. cbn zeta. rewrite onRead_key by done.
      cbn [fst snd]. rewrite replay_streaming by (by left).
      cbn [snd _RingReader.set_start_on_read _RingReader._read_cb].
      by rewrite deliveries_user.
    + cbn [length] in *.
      replace (S (length post) - Z.to_nat (_RingStorage.maxSize s))%nat
        with (S (length post - Z.to_nat (_RingStorage.maxSize s)))
        by lia.
      cbn [drop]. apply Hsilent; [by apply Forall_drop|].
      rewrite length_drop. lia.
  - destruct (since_last_key_no_key ws Hk) as [El Hnk]. rewrite El.
    apply Hsilent; [by apply Forall_drop|]. rewrite length_drop. lia.
Qed.

End late_subscriber.

Lemma X22_late_subscriber_replay_witness :
  let ws := [(false, 0%nat); (true, 1%nat); (false, 2%nat); (false, 3%nat)] in
  let s := _RingStorage.writes ws (_RingStorage.ctor 0 8) in
  (_RingReader.setReadCB (Some 7%nat) s (_RingReader.ctor 1%positive true)).2
  = [ReadCB 7 1%nat; ReadCB 7 2%nat; ReadCB 7 3%nat].
Proof.
  cbn zeta.
  rewrite (X22_late_subscriber_replay 0 8
             [(false, 0%nat); (true, 1%nat); (false, 2%nat); (false, 3%nat)]
             (_RingReader.ctor 1%positive true) 7%nat).
  - reflexivity.
  - unfold Int.in_range, Int.min_int, Int.max_int. lia.
  - unfold Int.in_range, Int.min_int, Int.max_int. lia.
  - lia.
  - reflexivity.
Defined.

(** * The worlds a program reaches while no reader is released *)

Section reachable_shape.
Context {T : Type}.
Implicit Types (w : World T).
Implicit Types (ss : gmap positive (_RingStorage.t T)).
Implicit Types (ds : gmap positive _RingReaderDispatcher.t).
Implicit Types (rs : gmap positive _RingReader.t).

Lemma tidy_update_storage c ss ds rs nx p s :
  is_Some (ss !! p) ->
  tidy_parts c ss ds rs nx -> tidy_parts c (<[p := s]> ss) ds rs nx.
Proof.
  intros Hp (H1 & H2 & H3 & H4). split_and!; [|done..].
  intros q [<- | Hq]%lookup_insert_is_Some'; by apply H1.
Qed.

Lemma tidy_update_reader c ss ds rs nx p r r' :
  rs !! p = Some r ->
  _RingReader._storage r' = _RingReader._storage r ->
  tidy_parts c ss ds rs nx -> tidy_parts c ss ds (<[p := r']> rs) nx.
Proof.
  intros Hp Hst (H1 & H2 & H3 & H4). split_and!; [done | done | |].
  - intros q [<- | Hq]%lookup_insert_is_Some'; [|by apply H3].
    apply H3. by eexists.
  - intros ref d Hd. destruct (H4 ref d Hd) as (Hc & Hsz & Hent).
    split_and!; [done | done |]. intros key v Hk.
    destruct (Hent key v Hk) as (-> & r0 & Hr0 & Hs0). split; [done|].
    destruct (decide (v = p)) as [-> | Hne].
    + exists r'. rewrite lookup_insert_eq. split; [done|]. congruence.
    + exists r0. by rewrite lookup_insert_ne.
Qed.

Lemma tidy_new_dispatcher c ss ds rs nx s f :
  is_Some (ss !! c) ->
  tidy_parts c ss ds rs nx ->
  tidy_parts c (<[nx := s]> ss)
    (<[Pos.succ nx := _RingReaderDispatcher.ctor nx f]> ds) rs
    (Pos.succ (Pos.succ nx)).
Proof.
  intros Hc (H1 & H2 & H3 & H4). split_and!.
  - intros q [-> | Hq%H1]%lookup_insert_is_Some'; lia.
  - intros q [<- | Hq%H2]%lookup_insert_is_Some'; lia.
  - intros q Hq%H3. lia.
  - intros ref d [[<- <-] | [_ Hd]]%lookup_insert_Some; [|by eapply H4].
    cbn. split_and!.
    + apply H1 in Hc. lia.
    + by rewrite map_size_empty.
    + intros key v Hk. by rewrite lookup_empty in Hk.
Qed.

Lemma tidy_attach_reader c ss ds rs nx ref d use_cache :
  ds !! ref = Some d ->
  tidy_parts c ss ds rs nx ->
  tidy_parts c ss
    (<[ref :=
         _RingReaderDispatcher.set_readers
           (Int.wrap (_RingReaderDispatcher._reader_size d + 1))
           (<[nx := nx]> (_RingReaderDispatcher._reader_map d)) d]> ds)
    (<[nx := _RingReader.ctor (_RingReaderDispatcher._storage d) use_cache]>
       rs)
    (Pos.succ nx).
Proof.
  intros Hd (H1 & H2 & H3 & H4).
  assert (Hold : forall v, is_Some (rs !! v) -> v <> nx).
  { intros v Hv%H3. lia. }
  split_and!.
  - intros q Hq%H1. lia.
  - intros q [<- | Hq%H2]%lookup_insert_is_Some'; [|lia].
    assert (ref < nx)%positive by (apply H2; by eexists). lia.
  - intros q [<- | Hq%H3]%lookup_insert_is_Some'; lia.
  - intros ref0 d0 [[<- <-] | [Hne Hd0]]%lookup_insert_Some.
    + destruct (H4 ref d Hd) as (Hc & Hsz & Hent). cbn. split_and!; [done | |].
      * assert (Hnone : _RingReaderDispatcher._reader_map d !! nx = None).
        { destruct (_RingReaderDispatcher._reader_map d !! nx) as [v|] eqn:E;
            [|done].
          destruct (Hent nx v E) as (<- & r & Hr & _).
          exfalso. apply (Hold nx); [by eexists | done]. }
        rewrite (map_size_insert_None _ _ _ Hnone). rewrite Hsz.
        rewrite wrap_add_wrap. f_equal. lia.
      * intros key v [[<- <-] | [Hk Hv]]%lookup_insert_Some.
        -- split; [done|]. eexists. rewrite lookup_insert_eq. done.
        -- destruct (Hent key v Hv) as (-> & r & Hr & Hs).
           split; [done|]. exists r. split; [|done].
           rewrite lookup_insert_ne; [done|].
           intros <-. by apply (Hold nx); [eexists|].
    + destruct (H4 ref0 d0 Hd0) as (Hc & Hsz & Hent).
      split_and!; [done | done |]. intros key v Hv.
      destruct (Hent key v Hv) as (-> & r & Hr & Hs).
      split; [done|]. exists r. split; [|done].
      rewrite lookup_insert_ne; [done|].
      intros <-. by apply (Hold nx); [eexists|].
Qed.

Lemma consistent_ctor size max_size cb :
  consistent (RingBuffer_ctor (T:=T) size max_size cb).
Proof.
  split; [apply wf_ctor|]. cbn. split_and!.
  - intros q [x [<- _]%lookup_singleton_Some]. lia.
  - intros q [x Hq]. by rewrite lookup_empty in Hq.
  - intros q [x Hq]. by rewrite lookup_empty in Hq.
  - intros ref d Hd. by rewrite lookup_empty in Hd.
Qed.

Lemma consistent_with_dispatcher poller w w1 ref d :
  consistent w -> with_dispatcher poller w = Some (w1, ref, d) ->
  consistent w1.
Proof.
  intros [Hwf Ht] Hw. split; [by eapply wf_with_dispatcher|].
  unfold with_dispatcher in Hw.
  destruct (RingBuffer._dispatcher_map (w_buffer w) !! poller_addr poller).
  - destruct (w_dispatchers w !! p); by simplify_eq/=.
  - destruct (w_storages w !! _) eqn:E; simplify_eq/=.
    apply tidy_new_dispatcher; [by eexists | done].
Qed.

Lemma consistent_after_dispatcher_attach this d use_cache w :
  consistent w -> w_dispatchers w !! this = Some d ->
  consistent (after_dispatcher_attach this d use_cache w).
Proof.
  intros [Hwf Ht] Hd. split; [by apply wf_after_dispatcher_attach|].
  unfold after_dispatcher_attach.
  destruct (_RingReaderDispatcher._on_size_changed d) as [captured].
  unfold after_size_changed. cbn.
  replace (RingBuffer._storage
             (if Int.wrap (_RingReaderDispatcher._reader_size d + 1) =? 0
              then RingBuffer.set_dispatcher_map
                     (delete (poller_addr captured)
                        (RingBuffer._dispatcher_map (w_buffer w)))
                     (w_buffer w)
              else w_buffer w))
    with (RingBuffer._storage (w_buffer w))
    by (by destruct (_ =? 0)).
  by apply tidy_attach_reader.
Qed.

Lemma dispatcher_write_consistent order this (in_ : T) is_key w d :
  consistent w ->
  w_dispatchers w !! this = Some d ->
  iteration_of order (_RingReaderDispatcher._reader_map d) ->
  exists w',
    _RingReaderDispatcher_write order this in_ is_key w = (w', Ok tt) /\
    consistent w'.
Proof.
  intros Hc Hd Horder. unfold _RingReaderDispatcher_write.
  unfold mbind at 1, M_bind at 1, deref at 1. rewrite Hd.
  unfold mbind at 1, M_bind at 1.
  match goal with
  | |- context [for_each ?l ?body w] =>
      destruct (for_each_returns
                  (fun w0 => consistent w0 /\ w_dispatchers w0 !! this = Some d)
                  l body) with (w := w)
        as (w1 & [] & E1 & [Hwf1 Ht1] & Hd1); [| done |]
  end.
  { intros [key v] Hin%(iteration_of_elem order _ key v Horder)
      w0 [[Hwf0 Ht0] Hd0].
    pose proof Ht0 as (_ & _ & _ & H4).
    destruct (H4 this d Hd0) as (_ & _ & Hent).
    destruct (Hent key v Hin) as (_ & r & Hr & Hst).
    pose proof Hwf0 as (_ & _ & _ & Hrs & _).
    destruct (Hrs _ _ Hr) as [s Hs].
    unfold mbind at 1, M_bind at 1, get_world. cbn [snd]. rewrite Hr.
    rewrite (reader_onRead_run _ in_ is_key _ r s Hr Hs).
    do 2 eexists. split; [done|]. split; [|done]. split.
    - unfold wf_world. cbn. apply wf_insert_reader; [|done].
      rewrite onRead_storage. by eexists.
    - cbn. eapply tidy_update_reader; [done | apply onRead_storage | done]. }
  rewrite E1. unfold_M. rewrite Hd1. cbn.
  pose proof Hwf1 as (_ & _ & H3 & _).
  destruct (H3 _ _ Hd1) as [s Hs]. rewrite Hs.
  eexists. split; [done|]. split.
  - unfold wf_world in *. cbn. by apply wf_insert_storage.
  - cbn. apply tidy_update_storage; [by eexists | done].
Qed.

Lemma buffer_write_consistent (in_ : T) is_key w :
  consistent w ->
  exists w', RingBuffer_write in_ is_key w = (w', Ok tt) /\ consistent w'.
Proof.
  intros [Hwf Ht]. unfold RingBuffer_write.
  unfold mbind at 1, M_bind at 1, get_buffer.
  destruct (RingBuffer._delegate (w_buffer w)) as [delegate|].
  { eexists. split; [done|]. by split. }
  pose proof Hwf as ([s Hs] & H2 & _). unfold_M. rewrite Hs. cbn.
  match goal with
  | |- context [for_each ?l ?body ?w1] =>
      destruct (for_each_returns
                  (fun w0 => consistent w0 /\
                             w_dispatchers w0 = w_dispatchers w) l body)
        with (w := w1) as (w2 & [] & E2 & Hc2 & _)
  end.
  - intros [p ref] Hin%elem_of_map_to_list w0 [[Hwf0 Ht0] Hds]. cbn.
    do 2 eexists. split; [done|]. split; [|done]. split; [|done].
    unfold wf_world. cbn. apply wf_post; [|done].
    rewrite Hds. eauto.
  - split; [|done]. split.
    + unfold wf_world. cbn. by apply wf_insert_storage.
    + cbn. apply tidy_update_storage; [by eexists | done].
  - exists w2. by rewrite E2.
Qed.

Lemma run_call_consistent call w :
  consistent w -> call_allowed call w -> consistent (run_call call w).1.
Proof.
  intros Hc Hok.
  destruct call as [x k | dl | cur p uc | rd cb | rd cb | order p];
    cbn [run_call call_allowed] in *.
  - by destruct (buffer_write_consistent x k w Hc) as (w1 & -> & H1).
  - destruct Hc as [Hwf Ht]. unfold RingBuffer_setDelegate. unfold_M. cbn.
    split; [|done]. by apply wf_set_delegate.
  - pose proof Hc as [Hwf _].
    destruct (attach_ready_with_dispatcher p w (wf_attach_ready p w Hwf))
      as (w1 & ref & d & Hw & _).
    pose proof (consistent_with_dispatcher p w w1 ref d Hc Hw) as Hc1.
    pose proof (with_dispatcher_lookup p w w1 ref d Hw) as Hd.
    unfold fmap, M_fmap.
    rewrite (buffer_attach_run cur p uc w w1 ref d Hw).
    destruct (isCurrentThread p cur) eqn:Hthread.
    + rewrite (dispatcher_attach_own ref cur p uc w1 d Hthread Hd).
      by apply consistent_after_dispatcher_attach.
    + by rewrite (dispatcher_attach_foreign ref cur p uc w1 Hthread).
  - destruct Hok as [r Hr]. destruct Hc as [Hwf Ht].
    pose proof Hwf as (_ & _ & _ & H4 & _).
    destruct (H4 _ _ Hr) as [s Hs].
    rewrite (reader_setReadCB_run rd cb w r s Hr Hs). cbn. split.
    + apply wf_insert_reader; [|done]. rewrite setReadCB_storage. by eexists.
    + cbn. eapply tidy_update_reader; [done | apply setReadCB_storage | done].
  - destruct Hok as [r Hr]. destruct Hc as [Hwf Ht].
    pose proof Hwf as (_ & _ & _ & H4 & _).
    unfold _RingReader_setDetachCB. unfold_M. rewrite Hr. cbn. split.
    + apply wf_insert_reader; [|done]. destruct cb; cbn; eauto.
    + cbn. eapply tidy_update_reader; [done | | done]. by destruct cb.
  - destruct Hc as [Hwf Ht]. unfold poller_step. unfold_M.
    destruct (w_queues w !! p) as [[|[ref x k] rest]|] eqn:Hq; cbn in *;
      [by split | | by split].
    pose proof Hwf as (_ & _ & _ & _ & H5).
    destruct (H5 p _ ref x k Hq (list_elem_of_here _ _)) as [d Hd].
    destruct (dispatcher_write_consistent order ref x k
      {| w_buffer := w_buffer w; w_storages := w_storages w;
         w_dispatchers := w_dispatchers w; w_readers := w_readers w;
         w_released := w_released w;
         w_queues := <[p := rest]> (w_queues w);
         w_trace := w_trace w; w_next := w_next w |} d)
      as (w1 & E1 & Hc1).
    + split; [|done]. unfold wf_world. cbn. by eapply wf_pop.
    + done.
    + by apply Hok.
    + by rewrite E1.
Qed.

Lemma reachable_consistent w : reachable w -> consistent w.
Proof.
  induction 1 as [size max_size cb | call w _ IH Hok].
  - apply consistent_ctor.
  - by apply run_call_consistent.
Qed.

(** X18: in every world a program reaches by writes, delegate changes,
    attaches, callback installations and poller steps, as long as no
    reader is released, each dispatcher registered in the buffer's map is
    a live object with a cache of its own, a live object other than the
    canonical cache; its count is the number of readers registered in it
    (as an [int]); every entry of its map holds, under the address of a
    reader, that reader, which is alive and reads the dispatcher's cache;
    and the address [new] hands out next holds no object. *)
Theorem X18_reachable_dispatchers_consistent w p ref :
  reachable w ->
  RingBuffer._dispatcher_map (w_buffer w) !! p = Some ref ->
  exists d,
    w_dispatchers w !! ref = Some d /\
    _RingReaderDispatcher._storage d <> RingBuffer._storage (w_buffer w) /\
    is_Some (w_storages w !! _RingReaderDispatcher._storage d) /\
    _RingReaderDispatcher._reader_size d =
      Int.wrap (Z.of_nat (size (_RingReaderDispatcher._reader_map d))) /\
    all_live (_RingReaderDispatcher._reader_map d) w /\
    (forall key v, _RingReaderDispatcher._reader_map d !! key = Some v ->
       key = v /\
       exists r, w_readers w !! v = Some r /\
                 _RingReader._storage r = _RingReaderDispatcher._storage d) /\
    w_storages w !! w_next w = None /\
    w_dispatchers w !! w_next w = None /\
    w_readers w !! w_next w = None.
Proof.
  intros Hr Hp.
  destruct (reachable_consistent w Hr) as [Hwf (H1 & H2 & H3 & H4)].
  pose proof Hwf as (_ & Hreg & Hds & Hrs & _).
  destruct (Hreg p ref Hp) as [d Hd]. exists d.
  destruct (H4 ref d Hd) as (Hc & Hsz & Hent).
  split_and!; [done | done | by eapply Hds | done | | done | | |].
  - intros key v Hk. destruct (Hent key v Hk) as (_ & r & Hr0 & _).
    exists r. split; [done|]. by eapply Hrs.
  - destruct (w_storages w !! w_next w) eqn:E; [|done].
    assert (w_next w < w_next w)%positive by (apply H1; by eexists). lia.
  - destruct (w_dispatchers w !! w_next w) eqn:E; [|done].
    assert (w_next w < w_next w)%positive by (apply H2; by eexists). lia.
  - destruct (w_readers w !! w_next w) eqn:E; [|done].
    assert (w_next w < w_next w)%positive by (apply H3; by eexists). lia.
Qed.

End reachable_shape.

Lemma X18_reachable_dispatchers_consistent_witness :
  exists d,
    w_dispatchers two_listening !! 3%positive = Some d /\
    _RingReaderDispatcher._reader_size d = 2 /\
    _RingReaderDispatcher._storage d
      <> RingBuffer._storage (w_buffer two_listening) /\
    w_storages two_listening !! w_next two_listening = None.
Proof.
  destruct (X18_reachable_dispatchers_consistent two_listening 3 3
              reachable_two_listening)
    as (d & Hd & Hc & _ & Hsz & _ & _ & Hfresh & _); [reflexivity|].
  exists d. split_and!; [exact Hd | | exact Hc | exact Hfresh].
  rewrite Hsz.
  assert (d = dispatcher3_two) as ->
    by (apply (inj Some); rewrite <- Hd; reflexivity).
  reflexivity.
Defined.
